(** * Verification of the mailbox transaction poller ([mail.py])

    A shallow embedding of [mail.py]: the transaction extractor
    [extract_transaction_info], the body decoder [get_email_body], the
    polling loop of [main] and [authenticate_gmail], together with the
    library functions they call ([re.search], [float],
    [base64.urlsafe_b64decode], [bytes.decode], [str.strip]).

    Python values are represented as follows.
    - [str]: a list of Unicode code points ([list N]);
    - [bytes]: a list of byte values ([list N], each below 256);
    - exceptions: a sum type [res] with [Return] and [Raise];
    - [set()] of message identifiers: stdpp's [gset];
    - [float]: the exact decimal that [float()] rounds to a double. *)

From Stdlib Require Import NArith String Ascii.
From stdpp Require Import base list gmap sets.

Local Open Scope N_scope.

(** ** Strings *)

Definition str := list N.

(** The code points of an ASCII literal. *)
Fixpoint codes (s : string) : str :=
  match s with
  | EmptyString => []
  | String a s' => N_of_ascii a :: codes s'
  end.

(** [a == b] on two [str]. *)
Fixpoint str_eqb (a b : str) : bool :=
  match a, b with
  | [], [] => true
  | x :: a', y :: b' => (x =? y) && str_eqb a' b'
  | _, _ => false
  end.

(** ** Exceptions *)

Inductive exn :=
| KeyboardInterrupt
| ValueError
| TypeError
| BinasciiError
| UnicodeEncodeError
| TransientError      (* a network failure of the mail provider *)
| FatalError.         (* revoked credentials and the like *)

Inductive res (A : Type) :=
| Return (a : A)
| Raise (e : exn).
Arguments Return {A} a.
Arguments Raise {A} e.

Definition bind {A B} (m : res A) (f : A -> res B) : res B :=
  match m with
  | Return a => f a
  | Raise e => Raise e
  end.

Notation "x <- m ;; k" := (bind m (fun x => k))
  (at level 100, m at next level, right associativity).

(** [KeyboardInterrupt] derives from [BaseException], every other
    exception of the model from [Exception]. *)
Definition is_Exception (e : exn) : bool :=
  match e with
  | KeyboardInterrupt => false
  | _ => true
  end.

(** ** Unicode decimal digits

    [\d] in a [str] pattern and [float()] both use the Unicode decimal
    property (category Nd).  The blocks below are those of Unicode 14: each
    is a run of code points whose values are 0..9 repeating from its
    start. *)

Definition decimal_blocks : list (N * N) :=
  [ (0x30, 10); (0x660, 10); (0x6f0, 10); (0x7c0, 10); (0x966, 10);
    (0x9e6, 10); (0xa66, 10); (0xae6, 10); (0xb66, 10); (0xbe6, 10);
    (0xc66, 10); (0xce6, 10); (0xd66, 10); (0xde6, 10); (0xe50, 10);
    (0xed0, 10); (0xf20, 10); (0x1040, 10); (0x1090, 10); (0x17e0, 10);
    (0x1810, 10); (0x1946, 10); (0x19d0, 10); (0x1a80, 10); (0x1a90, 10);
    (0x1b50, 10); (0x1bb0, 10); (0x1c40, 10); (0x1c50, 10); (0xa620, 10);
    (0xa8d0, 10); (0xa900, 10); (0xa9d0, 10); (0xa9f0, 10); (0xaa50, 10);
    (0xabf0, 10); (0xff10, 10); (0x104a0, 10); (0x10d30, 10); (0x11066, 10);
    (0x110f0, 10); (0x11136, 10); (0x111d0, 10); (0x112f0, 10);
    (0x11450, 10); (0x114d0, 10); (0x11650, 10); (0x116c0, 10);
    (0x11730, 10); (0x118e0, 10); (0x11950, 10); (0x11c50, 10);
    (0x11d50, 10); (0x11da0, 10); (0x16a60, 10); (0x16ac0, 10);
    (0x16b50, 10); (0x1d7ce, 50); (0x1e140, 10); (0x1e2f0, 10);
    (0x1e950, 10); (0x1fbf0, 10) ].

Fixpoint block_value (bs : list (N * N)) (c : N) : option N :=
  match bs with
  | [] => None
  | (lo, len) :: bs' =>
      if (lo <=? c) && (c <? lo + len) then Some ((c - lo) mod 10)
      else block_value bs' c
  end.

Definition decimal_value (c : N) : option N := block_value decimal_blocks c.

Definition is_decimal (c : N) : bool :=
  match decimal_value c with Some _ => true | None => false end.

(** ** [float()]

    The value of a [float] is kept as the exact decimal [mantissa / 10^scale]
    that Python rounds to the nearest double; the rounding itself is not
    modelled.  The model covers the texts [digits], [digits.digits],
    [digits.] and [.digits]; [float()] also accepts signs, exponents,
    underscores, surrounding blanks, [inf] and [nan], each of which needs a
    character that is neither a decimal digit nor a dot, and for which the
    model answers [ValueError]. *)

Record decimal := Dec { mantissa : N; scale : nat }.

Fixpoint digits_value (acc : N) (s : str) : option N :=
  match s with
  | [] => Some acc
  | c :: s' =>
      match decimal_value c with
      | Some d => digits_value (10 * acc + d) s'
      | None => None
      end
  end.

Fixpoint take_digits (s : str) : str :=
  match s with
  | c :: s' => if is_decimal c then c :: take_digits s' else []
  | [] => []
  end.

Fixpoint drop_digits (s : str) : str :=
  match s with
  | c :: s' => if is_decimal c then drop_digits s' else s
  | [] => []
  end.

Definition py_float (s : str) : res decimal :=
  let ip := take_digits s in
  match drop_digits s with
  | [] =>
      match ip, digits_value 0 ip with
      | _ :: _, Some v => Return (Dec v 0)
      | _, _ => Raise ValueError
      end
  | c :: fp =>
      if c =? 0x2e then
        match ip ++ fp, digits_value 0 (ip ++ fp) with
        | _ :: _, Some v => Return (Dec v (length fp))
        | _, _ => Raise ValueError
        end
      else Raise ValueError
  end.

(** A run of decimal digits and the number it writes. *)
Definition digits (s : str) : Prop := Forall (fun x => is_decimal x = true) s.

Definition number (s : str) : N := default 0 (digits_value 0 s).

(** ** [re]: a backtracking matcher

    Patterns are kept as syntax trees; [rmatch] explores the alternatives in
    the priority order of Python's engine (a greedy repeat tries the longest
    run first, a lazy repeat the shortest) and passes the rest of the text
    and the captured groups to a continuation. *)

Inductive cset :=
| Digit        (* \d *)
| AnyChar.     (* .  under re.DOTALL: every character, newline included *)

Definition in_cset (c : cset) (x : N) : bool :=
  match c with
  | Digit => is_decimal x
  | AnyChar => true
  end.

Inductive regex :=
| Lit (l : str)               (* a run of literal characters *)
| Plus (c : cset)             (* c+   greedy *)
| LazyStar (c : cset)         (* c*?  lazy *)
| Times (n : nat) (c : cset)  (* c{n} *)
| Group (i : nat) (r : regex) (* capturing group number i *)
| Seq (r1 r2 : regex).

Definition caps := list (nat * str).

Fixpoint group (i : nat) (g : caps) : option str :=
  match g with
  | [] => None
  | (j, s) :: g' => if Nat.eqb i j then Some s else group i g'
  end.

Section Matcher.
Context {A : Type}.

Fixpoint match_lit (l s : str) (k : str -> option A) : option A :=
  match l, s with
  | [], _ => k s
  | a :: l', x :: s' => if a =? x then match_lit l' s' k else None
  | _ :: _, [] => None
  end.

Fixpoint star_greedy (c : cset) (s : str) (k : str -> option A) : option A :=
  match s with
  | x :: s' =>
      if in_cset c x then
        match star_greedy c s' k with
        | Some a => Some a
        | None => k s
        end
      else k s
  | [] => k []
  end.

Definition plus_greedy (c : cset) (s : str) (k : str -> option A) : option A :=
  match s with
  | x :: s' => if in_cset c x then star_greedy c s' k else None
  | [] => None
  end.

Fixpoint star_lazy (c : cset) (s : str) (k : str -> option A) : option A :=
  match k s with
  | Some a => Some a
  | None =>
      match s with
      | x :: s' => if in_cset c x then star_lazy c s' k else None
      | [] => None
      end
  end.

Fixpoint times (n : nat) (c : cset) (s : str) (k : str -> option A) : option A :=
  match n with
  | O => k s
  | S n' =>
      match s with
      | x :: s' => if in_cset c x then times n' c s' k else None
      | [] => None
      end
  end.

Fixpoint rmatch (r : regex) (s : str) (g : caps)
    (k : str -> caps -> option A) : option A :=
  match r with
  | Lit l => match_lit l s (fun s' => k s' g)
  | Plus c => plus_greedy c s (fun s' => k s' g)
  | LazyStar c => star_lazy c s (fun s' => k s' g)
  | Times n c => times n c s (fun s' => k s' g)
  | Group i r' =>
      rmatch r' s g
        (fun s' g' => k s' ((i, take (length s - length s') s) :: g'))
  | Seq r1 r2 => rmatch r1 s g (fun s' g' => rmatch r2 s' g' k)
  end.
End Matcher.

(** The end of a pattern: whatever text is left, the match is made. *)
Definition accept : str -> caps -> option caps := fun _ g => Some g.

(** [re.match]: the groups of a match anchored at the start of [s]. *)
Definition re_match (r : regex) (s : str) : option caps :=
  rmatch r s [] accept.

(** [re.search]: the first start position, from the left, with a match. *)
Fixpoint re_search (r : regex) (s : str) : option caps :=
  match re_match r s with
  | Some g => Some g
  | None =>
      match s with
      | [] => None
      | _ :: s' => re_search r s'
      end
  end.

(** ** [extract_transaction_info] *)

Definition marker : str := codes "Rs.".
Definition dot : str := codes ".".
Definition credited : str := codes " is successfully credited".
Definition ref_phrase : str := codes "reference number is ".

(** The part of the pattern after the amount phrase:
    r".*?reference number is (\d+)" *)
Definition ref_tail : regex :=
  Seq (LazyStar AnyChar) (Seq (Lit ref_phrase) (Group 2 (Plus Digit))).

(** r"Rs\.(\d+\.\d{2}) is successfully credited.*?reference number is (\d+)" *)
Definition txn_pattern : regex :=
  Seq (Lit marker)
 (Seq (Group 1 (Seq (Plus Digit) (Seq (Lit dot) (Times 2 Digit))))
 (Seq (Lit credited) ref_tail)).

Record txn := Txn { amount : decimal; utr : str }.

(** [match.group(i)] of a group that took no part in the match is [None],
    on which [float] raises [TypeError]. *)
Definition float_of_group (flt : str -> res decimal) (g : option str)
    : res decimal :=
  match g with
  | Some s => flt s
  | None => Raise TypeError
  end.

(** The body of the [try] block, over the conversion [flt] it applies to
    group 1; [Return None] stands for falling out of the [if]. *)
Definition extract_try (flt : str -> res decimal) (text : str)
    : res (option txn) :=
  match re_search txn_pattern text with
  | Some m =>
      a <- float_of_group flt (group 1 m) ;;
      match group 2 m with
      | Some u => Return (Some (Txn a u))
      | None => Raise TypeError
      end
  | None => Return None
  end.

(** [except Exception as e]: the error is printed and control falls through
    to [return None]; an exception outside [Exception] is not caught. *)
Definition except_Exception (body : res (option txn)) : res (option txn) :=
  match body with
  | Return r => Return r
  | Raise e => if is_Exception e then Return None else Raise e
  end.

Definition extract_with (flt : str -> res decimal) (text : str)
    : res (option txn) :=
  except_Exception (extract_try flt text).

Definition extract_transaction_info (text : str) : res (option txn) :=
  extract_with py_float text.

(** ** Vocabulary for statements about texts *)

Fixpoint starts_with (l s : str) : bool :=
  match l, s with
  | [], _ => true
  | a :: l', x :: s' => (a =? x) && starts_with l' s'
  | _ :: _, [] => false
  end.

(** [P] holds of some suffix of [s], the empty one included. *)
Fixpoint any_suffix (P : str -> bool) (s : str) : bool :=
  P s || match s with [] => false | _ :: s' => any_suffix P s' end.

(** The currency marker occurs somewhere in [s]. *)
Definition has_marker (s : str) : bool := any_suffix (starts_with marker) s.

Definition digit_ahead (s : str) : bool :=
  match s with
  | c :: _ => is_decimal c
  | [] => false
  end.

(** The reference phrase, directly followed by a digit, starts [s]. *)
Definition ref_token_at (s : str) : bool :=
  starts_with ref_phrase s && digit_ahead (drop (length ref_phrase) s).

Definition has_ref_token (s : str) : bool := any_suffix ref_token_at s.

(** Where the currency marker starts [s], the digits after it run into a
    comma. *)
Definition comma_amount_at (s : str) : bool :=
  if starts_with marker s then
    match drop_digits (drop (length marker) s) with
    | c :: _ => c =? 0x2c
    | [] => false
    end
  else true.

(** Every occurrence of the currency marker in [s] is followed by an amount
    with a comma after its leading digits. *)
Definition comma_amounts_only (s : str) : bool :=
  negb (any_suffix (fun s' => negb (comma_amount_at s')) s).

(** ** Sample inputs of the extractor *)

Definition example_text : str :=
  codes "Rs.1234.56 is successfully credited to your account ... the reference number is 123456789012".

Definition otp_text : str := codes "Your OTP is 482913".

(** A conversion that fails on every text, to exercise the handler. *)
Definition failing_float (s : str) : res decimal := Raise ValueError.

(** A text that holds the amount phrase and the reference phrase, with
    arbitrary text before, between and after them. *)
Definition txn_text (pre ds dd mid ref post : str) : str :=
  pre ++ marker ++ ds ++ dot ++ dd ++ credited ++ mid ++
  ref_phrase ++ ref ++ post.

Definition comma_text : str :=
  codes "Rs.1,234.56 is successfully credited to your account ... reference number is 987654321".

(** ** More vocabulary for statements about texts *)

(** The amount phrase's closing words occur somewhere in [s]. *)
Definition has_credited (s : str) : bool := any_suffix (starts_with credited) s.

(** No match of the pattern starts at one of the first [n] positions. *)
Definition no_match_before (n : nat) (text : str) : Prop :=
  forall j, (j < n)%nat -> re_match txn_pattern (drop j text) = None.

(** A credit alert that names no reference number. *)
Definition no_ref_text : str :=
  codes "Rs.500.00 is successfully credited to your account.".

(** ** [str.encode('UTF-8')]

    A lone surrogate cannot be encoded and raises [UnicodeEncodeError]. *)

Definition bytes := list N.

Definition utf8_encode_char (c : N) : res bytes :=
  if c <? 0x80 then Return [c]
  else if c <? 0x800 then
    Return [N.lor 0xC0 (N.shiftr c 6); N.lor 0x80 (N.land c 0x3F)]
  else if (0xD800 <=? c) && (c <=? 0xDFFF) then Raise UnicodeEncodeError
  else if c <? 0x10000 then
    Return [N.lor 0xE0 (N.shiftr c 12);
            N.lor 0x80 (N.land (N.shiftr c 6) 0x3F);
            N.lor 0x80 (N.land c 0x3F)]
  else
    Return [N.lor 0xF0 (N.shiftr c 18);
            N.lor 0x80 (N.land (N.shiftr c 12) 0x3F);
            N.lor 0x80 (N.land (N.shiftr c 6) 0x3F);
            N.lor 0x80 (N.land c 0x3F)].

Fixpoint utf8_encode (s : str) : res bytes :=
  match s with
  | [] => Return []
  | c :: s' =>
      b <- utf8_encode_char c ;;
      bs <- utf8_encode s' ;;
      Return (b ++ bs)
  end.

(** ** [base64.urlsafe_b64decode]

    [urlsafe_b64decode] maps [-] to [+] and [_] to [/] and hands the bytes
    to [binascii.a2b_base64] in its lenient mode: bytes outside the alphabet
    are skipped, a pad that completes a quantum ends the decoding, and a
    last quantum left incomplete raises [binascii.Error]. *)

Definition urlsafe_translate (c : N) : N :=
  if c =? 45 then 43 else if c =? 95 then 47 else c.

(** [table_a2b_base64]: the six bits of an alphabet character. *)
Definition b64_value (c : N) : option N :=
  if (65 <=? c) && (c <=? 90) then Some (c - 65)
  else if (97 <=? c) && (c <=? 122) then Some (c - 71)
  else if (48 <=? c) && (c <=? 57) then Some (c + 4)
  else if c =? 43 then Some 62
  else if c =? 47 then Some 63
  else None.

Definition byte_of (n : N) : N := n mod 256.

(** The loop of [a2b_base64]: [quad_pos] is the position in the current
    group of four, [leftchar] the bits not yet written, [pads] the pads seen
    since the last alphabet character, [out] the bytes written so far, last
    one first. *)
Fixpoint a2b_loop (s : bytes) (quad_pos leftchar pads : N) (out : bytes)
    : res bytes :=
  match s with
  | [] =>
      if quad_pos =? 0 then Return (rev out) else Raise BinasciiError
  | c :: s' =>
      if c =? 61 then
        if 2 <=? quad_pos then
          if 4 <=? quad_pos + (pads + 1) then Return (rev out)
          else a2b_loop s' quad_pos leftchar (pads + 1) out
        else a2b_loop s' quad_pos leftchar pads out
      else
        match b64_value c with
        | None => a2b_loop s' quad_pos leftchar pads out
        | Some v =>
            if quad_pos =? 0 then a2b_loop s' 1 v 0 out
            else if quad_pos =? 1 then
              a2b_loop s' 2 (N.land v 0x0f) 0
                (byte_of (N.lor (N.shiftl leftchar 2) (N.shiftr v 4)) :: out)
            else if quad_pos =? 2 then
              a2b_loop s' 3 (N.land v 0x03) 0
                (byte_of (N.lor (N.shiftl leftchar 4) (N.shiftr v 2)) :: out)
            else
              a2b_loop s' 0 0 0
                (byte_of (N.lor (N.shiftl leftchar 6) v) :: out)
        end
  end.

Definition a2b_base64 (s : bytes) : res bytes := a2b_loop s 0 0 0 [].

Definition urlsafe_b64decode (s : bytes) : res bytes :=
  a2b_base64 (map urlsafe_translate s).

(** ** [bytes.decode(errors='ignore')]

    The UTF-8 decoder with the [ignore] handler: an invalid start byte is
    dropped; at an invalid continuation the bytes of the sequence read so
    far are dropped and decoding resumes at the offending byte; a sequence
    cut short by the end of the data is dropped. *)

Definition is_continuation (b : N) : bool := (0x80 <=? b) && (b <? 0xC0).

Definition low6 (b : N) : N := N.land b 0x3F.

Fixpoint utf8_decode_ignore (s : bytes) : str :=
  match s with
  | [] => []
  | b0 :: s1 =>
      if b0 <? 0x80 then b0 :: utf8_decode_ignore s1
      else if b0 <? 0xC2 then utf8_decode_ignore s1
      else if b0 <? 0xE0 then
        match s1 with
        | [] => []
        | b1 :: s2 =>
            if is_continuation b1
            then (N.land b0 0x1F * 64 + low6 b1) :: utf8_decode_ignore s2
            else utf8_decode_ignore s1
        end
      else if b0 <? 0xF0 then
        match s1 with
        | [] => []
        | b1 :: s2 =>
            if negb (is_continuation b1)
               || (if b1 <? 0xA0 then b0 =? 0xE0 else b0 =? 0xED)
            then utf8_decode_ignore s1
            else
              match s2 with
              | [] => []
              | b2 :: s3 =>
                  if is_continuation b2
                  then (N.land b0 0x0F * 4096 + low6 b1 * 64 + low6 b2)
                       :: utf8_decode_ignore s3
                  else utf8_decode_ignore s2
              end
        end
      else if b0 <? 0xF5 then
        match s1 with
        | [] => []
        | b1 :: s2 =>
            if negb (is_continuation b1)
               || (if b1 <? 0x90 then b0 =? 0xF0 else b0 =? 0xF4)
            then utf8_decode_ignore s1
            else
              match s2 with
              | [] => []
              | b2 :: s3 =>
                  if is_continuation b2 then
                    match s3 with
                    | [] => []
                    | b3 :: s4 =>
                        if is_continuation b3
                        then (N.land b0 0x07 * 262144 + low6 b1 * 4096
                              + low6 b2 * 64 + low6 b3)
                             :: utf8_decode_ignore s4
                        else utf8_decode_ignore s3
                    end
                  else utf8_decode_ignore s2
              end
        end
      else utf8_decode_ignore s1
  end.

(** ** [str.strip()] *)

Definition is_space (c : N) : bool :=
  ((9 <=? c) && (c <=? 13)) || ((0x1c <=? c) && (c <=? 0x20))
  || (c =? 0x85) || (c =? 0xa0) || (c =? 0x1680)
  || ((0x2000 <=? c) && (c <=? 0x200a))
  || (c =? 0x2028) || (c =? 0x2029) || (c =? 0x202f) || (c =? 0x205f)
  || (c =? 0x3000).

Fixpoint lstrip (s : str) : str :=
  match s with
  | c :: s' => if is_space c then lstrip s' else s
  | [] => []
  end.

Definition rstrip (s : str) : str := rev (lstrip (rev s)).

Definition strip (s : str) : str := rstrip (lstrip s).

(** ** [BeautifulSoup(content, "html.parser").get_text()]

    The HTML parser is a library outside the program; the decoder is written
    over any total function from markup to text. *)

Class BeautifulSoup := { get_text : str -> str }.

(** A plain tag stripper, used for the concrete examples only: the text of
    the document with everything from a [<] to the next [>] left out. *)
Fixpoint strip_tags (in_tag : bool) (s : str) : str :=
  match s with
  | [] => []
  | c :: s' =>
      if in_tag then strip_tags (negb (c =? 62)) s'
      else if c =? 60 then strip_tags true s'
      else c :: strip_tags false s'
  end.

Definition tag_stripper : BeautifulSoup := {| get_text := strip_tags false |}.

(** ** [get_email_body] *)

(** What the decoder reads of a part: [part.get('mimeType')] and
    [part.get('body', {}).get('data')]. *)
Record part := Part { mimeType : option str; body_data : option str }.

(** A payload: its own type and data, and its ['parts'] when it has that
    key. *)
Record payload := Payload { self : part; parts : option (list part) }.

(** The payload [{}]. *)
Definition empty_payload : payload := Payload (Part None None) None.

Definition text_plain : str := codes "text/plain".
Definition text_html : str := codes "text/html".

(** [mime_type == literal] *)
Definition mime_is (m : option str) (l : str) : bool :=
  match m with
  | Some s => str_eqb s l
  | None => false
  end.

(** [base64.urlsafe_b64decode(data.encode('UTF-8')).decode(errors='ignore')] *)
Definition decode_data (data : str) : res str :=
  b <- utf8_encode data ;;
  d <- urlsafe_b64decode b ;;
  Return (utf8_decode_ignore d).

Section Decoder.
Context {soup : BeautifulSoup}.

(** The two [return] branches on a decoded part; [None] when the type is
    neither. *)
Definition render (mime_type : option str) (content : str) : option str :=
  if mime_is mime_type text_plain then Some (strip content)
  else if mime_is mime_type text_html then Some (strip (get_text content))
  else None.

(** The [for part in payload['parts']] loop; [Return None] when it runs to
    its end without a [return]. *)
Fixpoint parts_loop (ps : list part) : res (option str) :=
  match ps with
  | [] => Return None
  | p :: ps' =>
      match body_data p with
      | None | Some [] => parts_loop ps'
      | Some data =>
          content <- decode_data data ;;
          match render (mimeType p) content with
          | Some text => Return (Some text)
          | None => parts_loop ps'
          end
      end
  end.

Definition get_email_body (p : payload) : res str :=
  match parts p with
  | Some ps =>
      r <- parts_loop ps ;;
      Return (default [] r)
  | None =>
      match body_data (self p) with
      | None | Some [] => Return []
      | Some data =>
          content <- decode_data data ;;
          Return (default [] (render (mimeType (self p)) content))
      end
  end.

End Decoder.

(** ** Vocabulary for statements about payloads *)

(** The part has body data that the loop does not skip. *)
Definition has_data (p : part) : bool :=
  match body_data p with
  | None | Some [] => false
  | Some _ => true
  end.

(** A part that the loop returns on: it has data and is plain text or
    HTML. *)
Definition is_text_part (p : part) : bool :=
  has_data p
  && (mime_is (mimeType p) text_plain || mime_is (mimeType p) text_html).

Definition is_plain_part (p : part) : bool :=
  has_data p && mime_is (mimeType p) text_plain.

Definition is_html_part (p : part) : bool :=
  has_data p && mime_is (mimeType p) text_html.

(** The body data of the part, if any, decodes without an exception. *)
Definition decodes (p : part) : bool :=
  match body_data p with
  | None => true
  | Some data =>
      match decode_data data with
      | Return _ => true
      | Raise _ => false
      end
  end.

(** The decoded content of a part with decodable data. *)
Definition content_of (p : part) : str :=
  match body_data p with
  | None => []
  | Some data =>
      match decode_data data with
      | Return c => c
      | Raise _ => []
      end
  end.

(** The decoder as the specification words it: the first plain-text part,
    and the first HTML part only when there is no plain-text part. *)
Definition spec_decode `{BeautifulSoup} (ps : list part) : str :=
  match find is_plain_part ps with
  | Some p => strip (content_of p)
  | None =>
      match find is_html_part ps with
      | Some p => strip (get_text (content_of p))
      | None => []
      end
  end.





(** ** Sample payloads *)

(** "<p>HTML body</p>" *)
Definition html_part : part :=
  Part (Some text_html) (Some (codes "PHA-SFRNTCBib2R5PC9wPg==")).

(** "plain body" *)
Definition plain_part : part :=
  Part (Some text_plain) (Some (codes "cGxhaW4gYm9keQ==")).

Definition multipart : part :=
  Part (Some (codes "multipart/alternative")) None.

Definition html_first : payload := Payload multipart (Some [html_part; plain_part]).

Definition plain_first : payload := Payload multipart (Some [plain_part; html_part]).

(** Body data with a last group of a single character. *)
Definition bad_payload : payload :=
  Payload (Part (Some text_plain) (Some (codes "A"))) None.

(** Canonical body data for the bytes FE FF, which are not UTF-8. *)
Definition garbled_payload : payload :=
  Payload (Part (Some text_plain) (Some (codes "_v8="))) None.

(** ** More vocabulary for statements about payloads *)

(** The text begins, or ends, with a character that [strip] removes. *)
Definition starts_blank (s : str) : bool :=
  match s with
  | c :: _ => is_space c
  | [] => false
  end.

Definition ends_blank (s : str) : bool := starts_blank (rev s).

(** What the decoder makes of the body data of a part. *)
Definition decoded (p : part) : res str :=
  match body_data p with
  | Some data => decode_data data
  | None => Return []
  end.

(** A part at which the loop ends: a text part, or a part whose data fail
    to decode. *)
Definition ends_loop (p : part) : bool :=
  is_text_part p || (has_data p && negb (decodes p)).

(** An attachment with body data whose last group is incomplete. *)
Definition bad_attachment : part :=
  Part (Some (codes "image/png")) (Some (codes "iVBOR")).

(** An attachment with well-formed body data. *)
Definition good_attachment : part :=
  Part (Some (codes "image/png")) (Some (codes "iVBORw0K")).

(** [decoded_bytes]: the bytes that the body data of a part stand for. *)
Definition decoded_bytes (data : str) : res bytes :=
  b <- utf8_encode data ;; urlsafe_b64decode b.

(** A code point of Unicode: Python's [str] holds no other. *)
Definition is_code_point (c : N) : Prop := c < 0x110000.

(** Two blanks, a rupee sign, "500 re", a c with cedilla, "u ", a grinning
    face and a newline: characters of one, two, three and four bytes. *)
Definition receipt_text : str :=
  [32; 32; 0x20b9; 53; 48; 48; 32; 114; 101; 0xe7; 117; 32; 0x1f600; 10].

Definition receipt_part : part :=
  Part (Some text_plain) (Some (codes "ICDigrk1MDAgcmXDp3Ug8J-YgAo=")).

(** A payload whose body data hold a lone surrogate. *)
Definition surrogate_payload : payload :=
  Payload (Part (Some text_plain) (Some [0xD800])) None.

(** ** The polling loop of [main]

    The loop talks to the mail provider and to the clock.  One round of the
    environment is a [tick]: what [messages().list(...).execute()] answers
    (the identifiers of [results.get('messages', [])], or the exception it
    raises), what [messages().get(id=...).execute()] answers for an
    identifier ([msg_data.get('payload')], or an exception), and whether
    [time.sleep] returns or is interrupted.  A [KeyboardInterrupt] is
    delivered at one of these three blocking calls, where the program
    spends its time; the pure steps in between either return or raise an
    exception of their own.  What the program does is kept as a trace of
    events. *)

Definition msg_id := str.

Inductive event :=
| PrintStart
| Query                                   (* messages().list(...).execute() *)
| Fetch (id : msg_id)                     (* messages().get(...).execute() *)
| Decode (id : msg_id)                    (* get_email_body(payload) *)
| Extract (id : msg_id) (r : option txn)  (* extract_transaction_info gave r *)
| PrintTxn (id : msg_id) (t : txn)        (* print("New Transaction found") *)
| MarkSeen (id : msg_id)                  (* seen_message_ids.add(msg_id) *)
| PrintDot                                (* print(".") *)
| Sleep                                   (* time.sleep(POLL_INTERVAL) *)
| PrintStopped.                           (* print("Polling stopped") *)

(** The message an event is about. *)
Definition event_id (e : event) : option msg_id :=
  match e with
  | Fetch id | Decode id | Extract id _ | PrintTxn id _ | MarkSeen id => Some id
  | _ => None
  end.

Fixpoint count_marks (id : msg_id) (tr : list event) : nat :=
  match tr with
  | [] => 0
  | MarkSeen j :: tr' =>
      if str_eqb j id then S (count_marks id tr') else count_marks id tr'
  | _ :: tr' => count_marks id tr'
  end.

Record tick := Tick {
  list_result : res (list msg_id);
  get_result : msg_id -> res (option payload);
  sleep_result : res unit
}.

(** The program state: the set [seen_message_ids] and the trace so far. *)
Record state := State { seen : gset msg_id; trace : list event }.

(** Computations that read and write the state and may raise; an exception
    leaves the state as it was when raised. *)
Definition M (A : Type) : Type := state -> res A * state.

Definition ret {A} (a : A) : M A := fun st => (Return a, st).

Definition mbind {A B} (m : M A) (f : A -> M B) : M B :=
  fun st =>
    match m st with
    | (Return a, st') => f a st'
    | (Raise e, st') => (Raise e, st')
    end.

Notation "x <~ m ;; k" := (mbind m (fun x => k))
  (at level 100, m at next level, right associativity).

Definition lift {A} (r : res A) : M A := fun st => (r, st).

Definition log (e : event) : M unit :=
  fun st => (Return tt, State (seen st) (trace st ++ [e])).

(** [msg_id in seen_message_ids] *)
Definition has_seen (id : msg_id) : M bool :=
  fun st => (Return (bool_decide (id ∈ seen st)), st).

(** [seen_message_ids.add(msg_id)] *)
Definition mark_seen (id : msg_id) : M unit :=
  fun st => (Return tt, State ({[id]} ∪ seen st) (trace st ++ [MarkSeen id])).

Section Poller.
Context {soup : BeautifulSoup}.

(** The body of [for msg in messages]. *)
Definition process_message (t : tick) (id : msg_id) (new_found : bool)
    : M bool :=
  s <~ has_seen id ;;
  if s then ret new_found
  else
    _ <~ log (Fetch id) ;;
    msg_data <~ lift (get_result t id) ;;
    _ <~ log (Decode id) ;;
    body_text <~ lift (get_email_body (default empty_payload msg_data)) ;;
    txn <~ lift (extract_transaction_info body_text) ;;
    _ <~ log (Extract id txn) ;;
    new_found' <~ match txn with
                  | Some r => _ <~ log (PrintTxn id r) ;; ret true
                  | None => ret new_found
                  end ;;
    _ <~ mark_seen id ;;
    ret new_found'.

Fixpoint for_messages (t : tick) (messages : list msg_id) (new_found : bool)
    : M bool :=
  match messages with
  | [] => ret new_found
  | id :: messages' =>
      new_found' <~ process_message t id new_found ;;
      for_messages t messages' new_found'
  end.

(** One round of [while True]. *)
Definition run_cycle (t : tick) : M unit :=
  _ <~ log Query ;;
  messages <~ lift (list_result t) ;;
  new_found <~ for_messages t messages false ;;
  _ <~ (if new_found then ret tt else log PrintDot) ;;
  _ <~ log Sleep ;;
  lift (sleep_result t).

(** [while True], for as many rounds as the environment is given. *)
Fixpoint poll (ticks : list tick) : M unit :=
  match ticks with
  | [] => ret tt
  | t :: ticks' => _ <~ run_cycle t ;; poll ticks'
  end.

Inductive outcome :=
| Polling            (* the loop is still running after the given rounds *)
| Stopped            (* KeyboardInterrupt, caught by [main] *)
| Crashed (e : exn). (* any other exception leaves [main] *)

Definition initial : state := State ∅ [PrintStart].

(** [main], after authentication: [seen_message_ids = set()], the start
    message, and the loop inside [try ... except KeyboardInterrupt]. *)
Definition main (ticks : list tick) : outcome * state :=
  match poll ticks initial with
  | (Return _, st) => (Polling, st)
  | (Raise KeyboardInterrupt, st) =>
      (Stopped, State (seen st) (trace st ++ [PrintStopped]))
  | (Raise e, st) => (Crashed e, st)
  end.

End Poller.

(** ** Vocabulary for statements about the loop *)

(** The list of messages without one identifier. *)
Fixpoint remove_id (id : msg_id) (messages : list msg_id) : list msg_id :=
  match messages with
  | [] => []
  | j :: messages' =>
      if str_eqb j id then remove_id id messages'
      else j :: remove_id id messages'
  end.

(** The text the decoder gives for a message of the round, when the fetch
    and the decoder both return. *)
Definition body_of `{BeautifulSoup} (t : tick) (id : msg_id) : option str :=
  match get_result t id with
  | Return msg_data =>
      match get_email_body (default empty_payload msg_data) with
      | Return body_text => Some body_text
      | Raise _ => None
      end
  | Raise _ => None
  end.

(** What extraction gives on that text. *)
Definition txn_of `{BeautifulSoup} (t : tick) (id : msg_id) : option txn :=
  match body_of t id with
  | Some body_text =>
      match extract_transaction_info body_text with
      | Return r => r
      | Raise _ => None
      end
  | None => None
  end.

Definition readable `{BeautifulSoup} (t : tick) (id : msg_id) : bool :=
  match body_of t id with Some _ => true | None => false end.

(** The events of a message that is processed to its end. *)
Definition processed (id : msg_id) (r : option txn) : list event :=
  [Fetch id; Decode id; Extract id r]
  ++ match r with Some x => [PrintTxn id x] | None => [] end
  ++ [MarkSeen id].

(** A computation respects a relation between the state before and the
    state after when every run of it, returning or raising, is in the
    relation. *)
Definition respects {A} (R : state -> state -> Prop) (m : M A) : Prop :=
  forall st r st', m st = (r, st') -> R st st'.

(** The seen set and the trace agree: an identifier is in the set exactly
    when the trace marks it, it is marked at most once, and every identifier
    whose extraction ran is in the set. *)
Definition consistent (st : state) : Prop :=
  (forall id, count_marks id (trace st)
              = if bool_decide (id ∈ seen st) then 1%nat else 0%nat) /\
  (forall id r, Extract id r ∈ trace st -> id ∈ seen st).

(** What every step of the program guarantees: the seen set only grows, the
    trace only grows, and consistency is kept. *)
Definition grows (st st' : state) : Prop :=
  seen st ⊆ seen st' /\
  (exists new, trace st' = trace st ++ new) /\
  (consistent st -> consistent st').

(** Nothing in a step is about the identifier [id], provided it was seen
    before. *)
Definition leaves_alone (id : msg_id) (st st' : state) : Prop :=
  id ∈ seen st ->
  id ∈ seen st' /\
  exists new, trace st' = trace st ++ new /\
              Forall (fun e => event_id e <> Some id) new.

(** Events that neither mark a message nor report an extraction. *)
Definition count_marks_free (new : list event) : Prop :=
  (forall id, count_marks id new = 0%nat) /\
  (forall id r, Extract id r ∉ new).

(** ** Sample rounds of the environment *)

(** "  Rs.12.50 is successfully credited.", a newline, "The reference number
    is 42", a newline. *)
Definition credit_payload : payload :=
  Payload
    (Part (Some text_plain)
       (Some (codes "ICBScy4xMi41MCBpcyBzdWNjZXNzZnVsbHkgY3JlZGl0ZWQuClRoZSByZWZlcmVuY2UgbnVtYmVyIGlzIDQyCg==")))
    None.

(** "Your OTP is 482913" *)
Definition otp_payload : payload :=
  Payload (Part (Some text_plain) (Some (codes "WW91ciBPVFAgaXMgNDgyOTEz")))
    None.

Definition m_credit : msg_id := codes "m-credit".
Definition m_otp : msg_id := codes "m-otp".
Definition m_bad : msg_id := codes "m-bad".

Definition mailbox (id : msg_id) : res (option payload) :=
  if str_eqb id m_credit then Return (Some credit_payload)
  else if str_eqb id m_otp then Return (Some otp_payload)
  else if str_eqb id m_bad then Return (Some bad_payload)
  else Return None.

(** A round that lists the OTP mail and the credit mail. *)
Definition tick_ok : tick := Tick (Return [m_otp; m_credit]) mailbox (Return tt).

(** A round that lists a mail with malformed body data before the credit
    mail. *)
Definition tick_bad : tick := Tick (Return [m_bad; m_credit]) mailbox (Return tt).

(** A round in which the query fails with a network error. *)
Definition tick_down : tick := Tick (Raise TransientError) mailbox (Return tt).

(** A round in which the user interrupts the sleep. *)
Definition tick_interrupted : tick :=
  Tick (Return []) mailbox (Raise KeyboardInterrupt).

(** The round [t] with the identifier [id] taken out of the answer of the
    query. *)
Definition without (id : msg_id) (t : tick) : tick :=
  Tick (match list_result t with
        | Return messages => Return (remove_id id messages)
        | Raise e => Raise e
        end)
       (get_result t) (sleep_result t).

(** How [main] ends on an exception that leaves the loop. *)
Definition ending (e : exn) (st : state) : outcome * state :=
  match e with
  | KeyboardInterrupt =>
      (Stopped, State (seen st) (trace st ++ [PrintStopped]))
  | _ => (Crashed e, st)
  end.

(** The number of queries sent to the provider. *)
Fixpoint count_queries (tr : list event) : nat :=
  match tr with
  | [] => 0
  | Query :: tr' => S (count_queries tr')
  | _ :: tr' => count_queries tr'
  end.

(** ** More vocabulary for statements about the loop *)

(** Events that print a transaction, and events about a message. *)
Definition is_print (e : event) : bool :=
  match e with
  | PrintTxn _ _ => true
  | _ => false
  end.

Definition is_message_event (e : event) : bool :=
  match event_id e with
  | Some _ => true
  | None => false
  end.

(** Reading a trace from its start: [slept] tells whether the program has
    slept since its last query.  The answer is [None] when a query is sent
    without a sleep since the one before, and the last value of the flag
    otherwise. *)
Fixpoint pace (slept : bool) (tr : list event) : option bool :=
  match tr with
  | [] => Some slept
  | Query :: tr' => if slept then pace false tr' else None
  | Sleep :: tr' => pace true tr'
  | _ :: tr' => pace slept tr'
  end.

(** No two queries without a sleep in between. *)
Definition paced (tr : list event) : bool :=
  match pace true tr with
  | Some _ => true
  | None => false
  end.

Fixpoint count_sleeps (tr : list event) : nat :=
  match tr with
  | [] => 0
  | Sleep :: tr' => S (count_sleeps tr')
  | _ :: tr' => count_sleeps tr'
  end.

(** The computation returned. *)
Definition returned {A} (r : res A) : bool :=
  match r with
  | Return _ => true
  | Raise _ => false
  end.

(** What a round, and a run of rounds, does to the pace and to the counts:
    [steady] relates the state before to the state after [n] rounds that
    were started, the last one ended or not. *)
Definition steady (n : nat) (ended : bool) (st st' : state) : Prop :=
  pace true (trace st) = Some true ->
  (exists b, pace true (trace st') = Some b /\ (ended = true -> b = true)) /\
  (count_queries (trace st') <= count_queries (trace st) + n)%nat /\
  (ended = true ->
   count_queries (trace st') = (count_queries (trace st) + n)%nat /\
   count_sleeps (trace st') = (count_sleeps (trace st) + n)%nat).

(** The events of a trace that are about one message. *)
Definition is_about (id : msg_id) (e : event) : bool :=
  match event_id e with
  | Some j => str_eqb j id
  | None => false
  end.

Definition events_about (id : msg_id) (tr : list event) : list event :=
  List.filter (is_about id) tr.

(** The events about every message are one pass of the loop body when the
    message is in the seen set, and none when it is not; in a run that was
    aborted ([running = false]), the message at which it was aborted may
    have its fetch, or its fetch and its decoding, in the trace. *)
Definition one_pass (running : bool) (st : state) : Prop :=
  forall id,
    (id ∈ seen st ->
     exists r, events_about id (trace st) = processed id r) /\
    (id ∉ seen st ->
     events_about id (trace st) = [] \/
     (running = false /\
      (events_about id (trace st) = [Fetch id] \/
       events_about id (trace st) = [Fetch id; Decode id]))).

(** A computation keeps the passes whole: from a state of a running
    program it leads to such a state again when it returns, and to a state
    of an aborted run when it raises. *)
Definition keeps_passes {A} (m : M A) : Prop :=
  forall st r st',
    m st = (r, st') -> one_pass true st -> one_pass (returned r) st'.

(** A round in which the provider answers the query, every listed message
    can be fetched and decoded, and the sleep is not interrupted. *)
Definition answers `{BeautifulSoup} (t : tick) : bool :=
  match list_result t, sleep_result t with
  | Return messages, Return _ => forallb (readable t) messages
  | _, _ => false
  end.

(** The identifiers that the queries of the rounds list. *)
Definition listed_by (t : tick) : gset msg_id :=
  match list_result t with
  | Return messages => list_to_set messages
  | Raise _ => ∅
  end.

Fixpoint listed (ticks : list tick) : gset msg_id :=
  match ticks with
  | [] => ∅
  | t :: ticks' => listed_by t ∪ listed ticks'
  end.



(** ** [authenticate_gmail]

    The function talks to the file system, to the token endpoint and to the
    browser.  What it reads of a [Credentials] object is kept in a record;
    the calls that leave the program are fields of an environment: reading
    [token.json] ([None] stands for a missing file), refreshing a
    credentials object (the object is updated in place: the answer is its
    new state), the browser flow on port 8080, and opening [token.json] for
    writing.  Once the file is open the write is taken to succeed.  The
    state is the content of [token.json] and the calls made so far. *)

Record creds := Creds {
  valid : bool;                 (* creds.valid *)
  expired : bool;               (* creds.expired *)
  refresh_token : option str;   (* creds.refresh_token *)
  to_json : str                 (* creds.to_json() *)
}.

Inductive auth_event :=
| LoadToken                (* Credentials.from_authorized_user_file *)
| Refresh                  (* creds.refresh(Request()) *)
| RunFlow                  (* flow.run_local_server(port=8080) *)
| WriteToken (json : str). (* token.write(creds.to_json()) *)

Record auth_env := AuthEnv {
  load_token : option str -> res creds;
  refresh : creds -> res creds;
  run_flow : res creds;
  open_token : res unit
}.

Record world := World { token_file : option str; calls : list auth_event }.

Definition note (e : auth_event) (w : world) : world :=
  World (token_file w) (calls w ++ [e]).

(** The truth value of [creds.refresh_token]: [None] and the empty string
    are false. *)
Definition truthy (o : option str) : bool :=
  match o with
  | Some (_ :: _) => true
  | _ => false
  end.

(** [try: creds = ... except Exception: pass], [creds] being [None]
    before. *)
Definition except_pass (r : res creds) : res (option creds) :=
  match r with
  | Return c => Return (Some c)
  | Raise e => if is_Exception e then Return None else Raise e
  end.

(** The inner [if ... else]: the refresh when [creds and creds.expired and
    creds.refresh_token], the browser flow otherwise. *)
Definition obtain (env : auth_env) (cached : option creds) (w : world)
    : res creds * world :=
  match cached with
  | Some c =>
      if expired c && truthy (refresh_token c)
      then (refresh env c, note Refresh w)
      else (run_flow env, note RunFlow w)
  | None => (run_flow env, note RunFlow w)
  end.

(** [with open(TOKEN_FILE, 'w') as token: token.write(creds.to_json())] *)
Definition store (env : auth_env) (c : creds) (w : world) : res unit * world :=
  match open_token env with
  | Return _ =>
      (Return tt, World (Some (to_json c)) (calls w ++ [WriteToken (to_json c)]))
  | Raise e => (Raise e, w)
  end.

(** The body of [if not creds or not creds.valid]. *)
Definition renew (env : auth_env) (cached : option creds) (w : world)
    : res creds * world :=
  match obtain env cached w with
  | (Return c, w1) =>
      match store env c w1 with
      | (Return _, w2) => (Return c, w2)
      | (Raise e, w2) => (Raise e, w2)
      end
  | (Raise e, w1) => (Raise e, w1)
  end.

Definition authenticate_gmail (env : auth_env) (w : world)
    : res creds * world :=
  let w0 := note LoadToken w in
  match except_pass (load_token env (token_file w)) with
  | Raise e => (Raise e, w0)
  | Return None => renew env None w0
  | Return (Some c) =>
      if valid c then (Return c, w0) else renew env (Some c) w0
  end.

(** A sample environment: the token file holds what was written, an
    expired token is refreshed, and the user signs in when asked. *)
Definition signed_in : creds :=
  Creds true false (Some (codes "r-1")) (codes "{token-2}").

Definition stale : creds :=
  Creds false true (Some (codes "r-1")) (codes "{token-1}").

Definition sample_env : auth_env :=
  AuthEnv
    (fun f => match f with
              | Some s => if str_eqb s (codes "{token-2}") then Return signed_in
                          else if str_eqb s (codes "{token-1}") then Return stale
                          else Raise ValueError
              | None => Raise FatalError
              end)
    (fun c => Return signed_in)
    (Return signed_in)
    (Return tt).

(** The refresh token of [stale] has been revoked. *)
Definition revoked_env : auth_env :=
  AuthEnv (load_token sample_env) (fun c => Raise FatalError)
    (Return signed_in) (Return tt).

(* ================================================================= *)
(** * Part II: lemmas and theorems *)

(** * Properties of the matcher *)

Section MatcherFacts.
Context {A : Type}.
Implicit Types (k : str -> option A) (s l : str) (c : cset).

Lemma match_lit_app l s k : match_lit l (l ++ s) k = k s.
Proof.
  induction l as [|a l IH]; simpl; [done|].
  by rewrite N.eqb_refl.
Qed.

Lemma match_lit_Some l s k a :
  match_lit l s k = Some a -> exists s', s = l ++ s' /\ k s' = Some a.
Proof.
  revert s. induction l as [|x l IH]; intros s H; simpl in H.
  - by exists s.
  - destruct s as [|y s]; [done|].
    destruct (N.eqb_spec x y) as [->|]; [|done].
    destruct (IH _ H) as (s' & -> & Hk). by exists s'.
Qed.

Lemma match_lit_None l s k :
  (forall s', s = l ++ s' -> k s' = None) -> match_lit l s k = None.
Proof.
  intros H. destruct (match_lit l s k) as [a|] eqn:E; [|done].
  apply match_lit_Some in E as (s' & -> & Hk).
  by rewrite (H s' eq_refl) in Hk.
Qed.

Lemma star_greedy_Some c s k a :
  star_greedy c s k = Some a ->
  exists s1 s2, s = s1 ++ s2 /\ Forall (fun x => in_cset c x = true) s1 /\
                k s2 = Some a.
Proof.
  induction s as [|x s IH]; simpl; intros H.
  - by exists [], [].
  - destruct (in_cset c x) eqn:Hx.
    + destruct (star_greedy c s k) as [b|] eqn:E.
      * destruct (IH H) as (s1 & s2 & -> & Hs1 & Hk).
        exists (x :: s1), s2. by repeat split; [constructor|].
      * by exists [], (x :: s).
    + by exists [], (x :: s).
Qed.

(** A greedy repeat followed by a continuation that accepts right after
    the whole run stops there. *)
Lemma star_greedy_run c s1 s2 k a :
  Forall (fun x => in_cset c x = true) s1 ->
  k s2 = Some a ->
  match s2 with x :: _ => in_cset c x = false | [] => True end ->
  star_greedy c (s1 ++ s2) k = Some a.
Proof.
  intros Hs1 Hk Hhd. induction Hs1 as [|x s1 Hx _ IH]; simpl.
  - destruct s2 as [|y s2]; simpl; [done|]. by rewrite Hhd.
  - by rewrite Hx, IH.
Qed.

Lemma plus_greedy_Some c s k a :
  plus_greedy c s k = Some a ->
  exists s1 s2, s = s1 ++ s2 /\ s1 <> [] /\
                Forall (fun x => in_cset c x = true) s1 /\ k s2 = Some a.
Proof.
  destruct s as [|x s]; simpl; [done|].
  destruct (in_cset c x) eqn:Hx; [|done]. intros H.
  apply star_greedy_Some in H as (s1 & s2 & -> & Hs1 & Hk).
  exists (x :: s1), s2. by repeat split; [|constructor|].
Qed.

Lemma plus_greedy_run c s1 s2 k a :
  s1 <> [] ->
  Forall (fun x => in_cset c x = true) s1 ->
  k s2 = Some a ->
  match s2 with x :: _ => in_cset c x = false | [] => True end ->
  plus_greedy c (s1 ++ s2) k = Some a.
Proof.
  intros Hne Hs1 Hk Hhd. destruct Hs1 as [|x s1 Hx Hs1]; [done|]. simpl.
  rewrite Hx. by apply star_greedy_run.
Qed.

Lemma star_lazy_Some c s k a :
  star_lazy c s k = Some a ->
  exists s1 s2, s = s1 ++ s2 /\ Forall (fun x => in_cset c x = true) s1 /\
                k s2 = Some a.
Proof.
  induction s as [|x s IH]; simpl; intros H.
  - destruct (k []) eqn:E; [|done]. injection H as <-. by exists [], [].
  - destruct (k (x :: s)) eqn:E.
    + injection H as <-. by exists [], (x :: s).
    + destruct (in_cset c x) eqn:Hx; [|done].
      destruct (IH H) as (s1 & s2 & -> & Hs1 & Hk).
      exists (x :: s1), s2. by repeat split; [constructor|].
Qed.

(** A lazy repeat stops at the first place where the continuation
    accepts. *)
Lemma star_lazy_first c s1 s2 k a :
  Forall (fun x => in_cset c x = true) s1 ->
  (forall i, (i < length s1)%nat -> k (drop i s1 ++ s2) = None) ->
  k s2 = Some a ->
  star_lazy c (s1 ++ s2) k = Some a.
Proof.
  intros Hs1. induction Hs1 as [|x s1 Hx _ IH]; intros Hno Hk.
  - simpl. destruct s2; simpl; by rewrite Hk.
  - simpl. pose proof (Hno 0%nat ltac:(simpl; lia)) as H0.
    simpl in H0. rewrite H0, Hx.
    apply IH; [|done]. intros i Hi. apply (Hno (S i)). simpl; lia.
Qed.

Lemma star_lazy_accepts c s1 s2 k a :
  Forall (fun x => in_cset c x = true) s1 ->
  k s2 = Some a ->
  exists a', star_lazy c (s1 ++ s2) k = Some a'.
Proof.
  intros Hs1 Hk. induction Hs1 as [|x s1 Hx _ IH].
  - exists a. simpl. destruct s2; simpl; by rewrite Hk.
  - simpl. destruct (k (x :: s1 ++ s2)) as [b|]; [by exists b|].
    by rewrite Hx.
Qed.

Lemma times_Some n c s k a :
  times n c s k = Some a ->
  exists s1 s2, s = s1 ++ s2 /\ length s1 = n /\
                Forall (fun x => in_cset c x = true) s1 /\ k s2 = Some a.
Proof.
  revert s. induction n as [|n IH]; intros s H; simpl in H.
  - by exists [], s.
  - destruct s as [|x s]; [done|].
    destruct (in_cset c x) eqn:Hx; [|done].
    destruct (IH _ H) as (s1 & s2 & -> & <- & Hs1 & Hk).
    exists (x :: s1), s2. by repeat split; [constructor|].
Qed.

Lemma times_run c s1 s2 k :
  Forall (fun x => in_cset c x = true) s1 ->
  times (length s1) c (s1 ++ s2) k = k s2.
Proof.
  intros Hs1. induction Hs1 as [|x s1 Hx _ IH]; simpl; [done|].
  by rewrite Hx.
Qed.
End MatcherFacts.

Lemma take_consumed (a b : str) :
  take (length (a ++ b) - length b) (a ++ b) = a.
Proof.
  rewrite length_app.
  replace (length a + length b - length b)%nat with (length a) by lia.
  by rewrite take_app_length.
Qed.

Lemma re_search_Some r s g :
  re_search r s = Some g ->
  exists i, (i <= length s)%nat /\ re_match r (drop i s) = Some g /\
            forall j, (j < i)%nat -> re_match r (drop j s) = None.
Proof.
  induction s as [|x s IH]; simpl.
  - destruct (re_match r []) eqn:E; [|done]. intros [= ->].
    exists 0%nat. split; [done|]. split; [done|]. intros j Hj; lia.
  - destruct (re_match r (x :: s)) eqn:E.
    + intros [= ->]. exists 0%nat.
      split; [lia|]. split; [done|]. intros j Hj; lia.
    + intros H. destruct (IH H) as (i & Hi & Hm & Hlt).
      exists (S i). split; [lia|]. split; [done|].
      intros [|j] Hj; [done|]. simpl. apply Hlt. lia.
Qed.

Lemma re_search_None r s :
  (forall i, (i <= length s)%nat -> re_match r (drop i s) = None) ->
  re_search r s = None.
Proof.
  intros H. destruct (re_search r s) as [g|] eqn:E; [|done].
  apply re_search_Some in E as (i & Hi & Hm & _).
  by rewrite (H i Hi) in Hm.
Qed.

Lemma re_search_first r s1 s2 g :
  (forall i, (i < length s1)%nat -> re_match r (drop i s1 ++ s2) = None) ->
  re_match r s2 = Some g ->
  re_search r (s1 ++ s2) = Some g.
Proof.
  induction s1 as [|x s1 IH]; intros Hno Hm.
  - simpl. destruct s2; simpl; by rewrite Hm.
  - simpl. pose proof (Hno 0%nat ltac:(simpl; lia)) as H0.
    simpl in H0. rewrite H0.
    apply IH; [|done]. intros i Hi. apply (Hno (S i)). simpl; lia.
Qed.

(** * Properties of the transaction pattern *)

(** What an anchored match of [txn_pattern] looks like. *)
Lemma txn_match_Some s g :
  re_match txn_pattern s = Some g ->
  exists ds dd mid ref post,
    s = marker ++ ds ++ dot ++ dd ++ credited ++ mid ++ ref_phrase ++ ref ++ post /\
    ds <> [] /\ digits ds /\ length dd = 2%nat /\ digits dd /\
    ref <> [] /\ digits ref /\
    g = [(2%nat, ref); (1%nat, ds ++ dot ++ dd)].
Proof.
  unfold re_match, txn_pattern, ref_tail, accept. cbn [rmatch]. intros H.
  apply match_lit_Some in H as (s1 & E1 & H).
  apply plus_greedy_Some in H as (ds & s2 & E2 & Hne & Hds & H).
  apply match_lit_Some in H as (s3 & E3 & H).
  apply times_Some in H as (dd & s4 & E4 & Hlen & Hdd & H).
  apply match_lit_Some in H as (s5 & E5 & H).
  apply star_lazy_Some in H as (mid & s6 & E6 & _ & H).
  apply match_lit_Some in H as (s7 & E7 & H).
  apply plus_greedy_Some in H as (ref & post & E8 & Hrne & Href & H).
  injection H as <-. subst.
  exists ds, dd, mid, ref, post.
  split; [done|]. do 6 (split; [done|]).
  rewrite take_consumed.
  rewrite (app_assoc dot dd), (app_assoc ds (dot ++ dd)), take_consumed.
  done.
Qed.

(** ** [float] on the text of group 1 *)

Lemma digits_value_Some s acc : digits s -> is_Some (digits_value acc s).
Proof.
  intros H. revert acc. induction H as [|c s Hc _ IH]; intros acc; simpl.
  - by eexists.
  - unfold is_decimal in Hc. destruct (decimal_value c); [apply IH|done].
Qed.

Lemma take_digits_run ds c r :
  digits ds -> is_decimal c = false -> take_digits (ds ++ c :: r) = ds.
Proof.
  intros H Hc. induction H as [|d ds Hd _ IH]; simpl.
  - by rewrite Hc.
  - by rewrite Hd, IH.
Qed.

Lemma drop_digits_run ds c r :
  digits ds -> is_decimal c = false -> drop_digits (ds ++ c :: r) = c :: r.
Proof.
  intros H Hc. induction H as [|d ds Hd _ IH]; simpl.
  - by rewrite Hc.
  - by rewrite Hd, IH.
Qed.

Lemma py_float_amount ds dd :
  ds <> [] -> digits ds -> digits dd ->
  py_float (ds ++ dot ++ dd) = Return (Dec (number (ds ++ dd)) (length dd)).
Proof.
  intros Hne Hds Hdd. unfold py_float. change (dot ++ dd) with (0x2e :: dd).
  rewrite take_digits_run, drop_digits_run by done.
  rewrite N.eqb_refl. unfold number.
  destruct (digits_value_Some (ds ++ dd) 0) as [v ->].
  { by apply Forall_app. }
  destruct ds; [done|]. done.
Qed.

(** A successful search, read back on the text. *)
Lemma txn_search_Some text m :
  re_search txn_pattern text = Some m ->
  exists pre ds dd mid ref post,
    text = pre ++ marker ++ ds ++ dot ++ dd ++ credited ++ mid ++
           ref_phrase ++ ref ++ post /\
    ds <> [] /\ digits ds /\ length dd = 2%nat /\ digits dd /\
    ref <> [] /\ digits ref /\
    m = [(2%nat, ref); (1%nat, ds ++ dot ++ dd)].
Proof.
  intros H. apply re_search_Some in H as (i & _ & H & _).
  apply txn_match_Some in H as (ds & dd & mid & ref & post & E & H).
  exists (take i text), ds, dd, mid, ref, post. split; [|done].
  by rewrite <- E, take_drop.
Qed.

Lemma extract_try_match text ds dd ref :
  re_search txn_pattern text = Some [(2%nat, ref); (1%nat, ds ++ dot ++ dd)] ->
  ds <> [] -> digits ds -> digits dd ->
  extract_try py_float text =
    Return (Some (Txn (Dec (number (ds ++ dd)) (length dd)) ref)).
Proof.
  intros H Hne Hds Hdd. unfold extract_try. rewrite H.
  cbn [group Nat.eqb float_of_group bind]. by rewrite py_float_amount.
Qed.

Lemma extract_try_returns text : exists r, extract_try py_float text = Return r.
Proof.
  destruct (re_search txn_pattern text) as [m|] eqn:E.
  - destruct (txn_search_Some _ _ E)
      as (pre & ds & dd & mid & ref & post & _ & ? & ? & ? & ? & ? & ? & ->).
    eexists. by apply extract_try_match.
  - exists None. unfold extract_try. by rewrite E.
Qed.


(** ** Prefixes and suffixes *)

Lemma starts_with_true l s :
  starts_with l s = true <-> exists r, s = l ++ r.
Proof.
  revert s. induction l as [|a l IH]; intros s; simpl.
  - split; [by exists s|done].
  - destruct s as [|x s]; [split; [done|by intros [r ?]]|].
    rewrite andb_true_iff, IH, N.eqb_eq. split.
    + intros [-> [r ->]]. by exists r.
    + intros [r [= -> ->]]. split; [done|by exists r].
Qed.

Lemma any_suffix_false P s i :
  any_suffix P s = false -> P (drop i s) = false.
Proof.
  revert i. induction s as [|x s IH]; intros i H; simpl in H.
  - rewrite drop_nil. by destruct (P []).
  - apply orb_false_iff in H as [H1 H2]. destruct i; [done|].
    by apply IH.
Qed.

(** ** The tail of the pattern *)

Lemma ref_tail_Some s g a :
  rmatch ref_tail s g accept = Some a ->
  exists mid ref post,
    s = mid ++ ref_phrase ++ ref ++ post /\ ref <> [] /\ digits ref /\
    a = (2%nat, ref) :: g.
Proof.
  unfold ref_tail, accept. cbn [rmatch]. intros H.
  apply star_lazy_Some in H as (mid & s1 & E1 & _ & H).
  apply match_lit_Some in H as (s2 & E2 & H).
  apply plus_greedy_Some in H as (ref & post & E3 & Hne & Href & H).
  injection H as <-. subst. exists mid, ref, post.
  by rewrite take_consumed.
Qed.

Lemma star_greedy_accept c s (f : str -> caps) :
  is_Some (star_greedy c s (fun s' => Some (f s'))).
Proof.
  induction s as [|x s [a IH]]; simpl; [by eexists|].
  destruct (in_cset c x); [rewrite IH|]; by eexists.
Qed.

(** The tail accepts any text that holds the reference phrase followed by a
    digit, whatever stands before it. *)
Lemma ref_tail_accepts mid ref post g :
  ref <> [] -> digits ref ->
  exists u, rmatch ref_tail (mid ++ ref_phrase ++ ref ++ post) g accept
            = Some ((2%nat, u) :: g).
Proof.
  intros Hne Href.
  assert (exists a, rmatch ref_tail (mid ++ ref_phrase ++ ref ++ post) g accept
                    = Some a) as [a Ha].
  { unfold ref_tail, accept. cbn [rmatch].
    destruct ref as [|d ref]; [done|]. apply Forall_cons in Href as [Hd _].
    destruct (star_greedy_accept Digit (ref ++ post)
      (fun s' => [(2%nat, take (length (d :: ref ++ post) - length s')
                              (d :: ref ++ post))] ++ g)) as [b Hb].
    eapply star_lazy_accepts.
    - apply Forall_forall. by intros.
    - rewrite match_lit_app. simpl. rewrite Hd. exact Hb. }
  destruct (ref_tail_Some _ _ _ Ha) as (? & u & ? & _ & _ & _ & ->).
  by exists u.
Qed.

Lemma no_digit_in (l : str) :
  forallb (fun c => negb (is_decimal c)) l = true ->
  forall c, c ∈ l -> is_decimal c = false.
Proof.
  intros H c Hc. apply list_elem_of_In in Hc.
  pose proof (proj1 (forallb_forall _ _) H c Hc) as Hn.
  by apply negb_true_iff in Hn.
Qed.

Lemma ref_token_straddle m2 ref post r :
  m2 <> [] -> (length m2 <= length ref_phrase)%nat ->
  m2 ++ ref_phrase ++ ref ++ post = ref_phrase ++ r ->
  digit_ahead r = false.
Proof.
  intros Hne Hlen E.
  destruct r as [|c r]; [done|]. cbn [digit_ahead].
  assert ((m2 ++ ref_phrase ++ ref ++ post) !! length ref_phrase = Some c) as Hc.
  { rewrite E. rewrite lookup_app_r by lia. by rewrite Nat.sub_diag. }
  rewrite lookup_app_r in Hc by lia.
  rewrite lookup_app_l in Hc.
  2:{ destruct m2; [done|]. cbn [length] in *. lia. }
  apply list_elem_of_lookup_2 in Hc.
  revert Hc. apply no_digit_in. vm_compute. reflexivity.
Qed.

(** Without an earlier reference token in between, the lazy repeat runs up
    to the reference phrase and the greedy group takes the whole token. *)
Lemma ref_tail_first mid ref post g :
  ref <> [] -> digits ref ->
  has_ref_token mid = false -> digit_ahead post = false ->
  rmatch ref_tail (mid ++ ref_phrase ++ ref ++ post) g accept
  = Some ((2%nat, ref) :: g).
Proof.
  intros Hne Href Hmid Hpost. unfold ref_tail, accept. cbn [rmatch].
  apply star_lazy_first.
  - apply Forall_forall. by intros.
  - intros i Hi. apply match_lit_None. intros r E.
    assert (digit_ahead r = false) as Hr.
    { destruct (decide (length (drop i mid) <= length ref_phrase)%nat) as [Hle|Hgt].
      - eapply ref_token_straddle; [|exact Hle|exact E].
        intros Hnil. apply (f_equal length) in Hnil. rewrite length_drop in Hnil.
        simpl in Hnil. lia.
      - pose proof (any_suffix_false _ _ i Hmid) as Hi'.
        unfold ref_token_at in Hi'.
        assert (exists r', drop i mid = ref_phrase ++ r' /\
                           r' ++ ref_phrase ++ ref ++ post = r) as (r' & E1 & E2).
        { exists (drop (length ref_phrase) (drop i mid)). 
          assert (take (length ref_phrase) (drop i mid) = ref_phrase) as Ht.
          { apply (f_equal (take (length ref_phrase))) in E.
            rewrite take_app_le in E by lia.
            by rewrite take_app_length in E. }
          split.
          - rewrite <- Ht at 1. by rewrite take_drop.
          - apply (f_equal (drop (length ref_phrase))) in E.
            rewrite drop_app_le in E by lia.
            by rewrite drop_app_length in E. }
        rewrite E1 in Hi'. rewrite drop_app_length in Hi'.
        rewrite (proj2 (starts_with_true _ _)) in Hi' by (by exists r').
        simpl in Hi'. subst r. destruct r' as [|c r'].
        + rewrite E1, length_app in Hgt. simpl in Hgt. lia.
        + done. }
    destruct r as [|c r]; [done|]. simpl in *. by rewrite Hr.
  - rewrite match_lit_app.
    erewrite plus_greedy_run; [|done|exact Href|reflexivity|].
    + by rewrite take_consumed.
    + destruct post; [done|]. exact Hpost.
Qed.


(** ** The head of the pattern *)

Lemma txn_match_head ds dd rest a :
  ds <> [] -> digits ds -> digits dd -> length dd = 2%nat ->
  rmatch ref_tail rest [(1%nat, ds ++ dot ++ dd)] accept = Some a ->
  re_match txn_pattern (marker ++ ds ++ dot ++ dd ++ credited ++ rest) = Some a.
Proof.
  intros Hne Hds Hdd Hlen Ha. unfold re_match, txn_pattern. cbn [rmatch].
  rewrite match_lit_app.
  apply plus_greedy_run; [done|exact Hds| |reflexivity].
  rewrite match_lit_app, <- Hlen, times_run by exact Hdd.
  rewrite match_lit_app.
  rewrite (app_assoc dot dd), (app_assoc ds (dot ++ dd)), take_consumed.
  exact Ha.
Qed.

Lemma marker_straddle p rest r :
  p <> [] -> (length p < length marker)%nat -> p ++ marker ++ rest <> marker ++ r.
Proof.
  intros Hne Hlen E. change marker with [82; 115; 46] in *.
  destruct p as [|a [|b [|c p]]]; cbn [length app] in *; [done| | |lia].
  - by injection E.
  - by injection E.
Qed.

Lemma txn_search_at pre s0 g :
  has_marker pre = false ->
  (exists r, s0 = marker ++ r) ->
  re_match txn_pattern s0 = Some g ->
  re_search txn_pattern (pre ++ s0) = Some g.
Proof.
  intros Hpre [r0 ->] Hm. apply re_search_first; [|done].
  intros i Hi. unfold re_match, txn_pattern. cbn [rmatch].
  apply match_lit_None. intros r E. exfalso.
  destruct (decide (length (drop i pre) < length marker)%nat) as [Hlt|Hge].
  - eapply marker_straddle; [|exact Hlt|exact E].
    intros Hnil. apply (f_equal length) in Hnil. rewrite length_drop in Hnil.
    cbn [length] in Hnil. lia.
  - pose proof (any_suffix_false _ _ i Hpre) as Hi'.
    rewrite (proj2 (starts_with_true _ _)) in Hi'; [done|].
    exists (drop (length marker) (drop i pre)).
    rewrite <- (take_drop (length marker) (drop i pre)) at 1. f_equal.
    apply (f_equal (take (length marker))) in E.
    rewrite take_app_le in E by lia. by rewrite take_app_length in E.
Qed.


(** * The transaction extractor *)

Lemma extract_match text ds dd ref :
  re_search txn_pattern text = Some [(2%nat, ref); (1%nat, ds ++ dot ++ dd)] ->
  ds <> [] -> digits ds -> digits dd ->
  extract_transaction_info text =
    Return (Some (Txn (Dec (number (ds ++ dd)) (length dd)) ref)).
Proof.
  intros H Hne Hds Hdd. unfold extract_transaction_info, extract_with.
  by rewrite (extract_try_match _ _ _ _ H Hne Hds Hdd).
Qed.

(** A successful extraction, read back on the text. *)
Lemma extract_Some text t :
  extract_transaction_info text = Return (Some t) ->
  exists pre ds dd mid post,
    text = pre ++ marker ++ ds ++ dot ++ dd ++ credited ++ mid ++
           ref_phrase ++ utr t ++ post /\
    ds <> [] /\ digits ds /\ length dd = 2%nat /\ digits dd /\
    utr t <> [] /\ digits (utr t) /\
    amount t = Dec (number (ds ++ dd)) 2 /\
    re_search txn_pattern text =
      Some [(2%nat, utr t); (1%nat, ds ++ dot ++ dd)].
Proof.
  intros H. destruct (re_search txn_pattern text) as [m|] eqn:E.
  - destruct (txn_search_Some _ _ E)
      as (pre & ds & dd & mid & ref & post & Et & Hne & Hds & Hlen & Hdd
          & Hrne & Href & ->).
    rewrite (extract_match _ _ _ _ E Hne Hds Hdd) in H.
    injection H as <-. cbn [utr amount]. rewrite Hlen.
    by exists pre, ds, dd, mid, post.
  - unfold extract_transaction_info, extract_with, extract_try in H.
    rewrite E in H. done.
Qed.

(** ** C6: the sample text and the reference field *)

(** Claim C6.  On the text "Rs.1234.56 is successfully credited to your
    account ... the reference number is 123456789012" the extractor returns
    the record with amount 1234.56 (the decimal 123456 / 10^2) and reference
    "123456789012"; and in every successful extraction the reference field
    is the text of group 2 of the match: a non-empty run of digits that
    stands in the input right after the reference phrase, kept as a string
    (the record's [utr] field has type [str], its [amount] field is the
    number). *)
Theorem C6_extraction_example_and_reference_string :
  extract_transaction_info example_text
    = Return (Some (Txn (Dec 123456 2) (codes "123456789012"))) /\
  forall text t,
    extract_transaction_info text = Return (Some t) ->
    (exists m, re_search txn_pattern text = Some m /\
               group 2 m = Some (utr t)) /\
    utr t <> [] /\ digits (utr t) /\
    exists before after, text = before ++ ref_phrase ++ utr t ++ after.
Proof.
  split; [vm_compute; reflexivity|].
  intros text t H.
  destruct (extract_Some _ _ H)
    as (pre & ds & dd & mid & post & Et & _ & _ & _ & _ & Hne & Hd & _ & Hs).
  split; [eexists; split; [exact Hs|reflexivity]|].
  split; [done|]. split; [done|].
  exists (pre ++ marker ++ ds ++ dot ++ dd ++ credited ++ mid), post.
  rewrite Et. by rewrite <- !app_assoc.
Qed.

Lemma C6_witness :
  let t := Txn (Dec 123456 2) (codes "123456789012") in
  (exists m, re_search txn_pattern example_text = Some m /\
             group 2 m = Some (utr t)) /\
  utr t <> [] /\ digits (utr t) /\
  exists before after, example_text = before ++ ref_phrase ++ utr t ++ after.
Proof.
  intros t.
  apply (proj2 C6_extraction_example_and_reference_string example_text t).
  vm_compute. reflexivity.
Defined.

(** ** C7: a record or [None], never an exception *)

(** Claim C7.  For every input text the extractor returns, without raising,
    either a record with both fields set (an amount with two decimals and a
    non-empty reference) or [None]; it returns [None] when the pattern does
    not match; and whatever exception the conversion of group 1 raises after
    a structural match, the result is [None]. *)
Theorem C7_extract_record_or_none :
  forall text,
    ((exists t, extract_transaction_info text = Return (Some t) /\
                utr t <> [] /\ exists v, amount t = Dec v 2) \/
     extract_transaction_info text = Return None) /\
    (re_search txn_pattern text = None ->
     extract_transaction_info text = Return None) /\
    (forall flt m s e,
       re_search txn_pattern text = Some m -> group 1 m = Some s ->
       flt s = Raise e -> is_Exception e = true ->
       extract_with flt text = Return None).
Proof.
  intros text. split; [|split].
  - destruct (re_search txn_pattern text) as [m|] eqn:E.
    + left. destruct (txn_search_Some _ _ E)
        as (pre & ds & dd & mid & ref & post & Et & Hne & Hds & Hlen & Hdd
            & Hrne & Href & ->).
      eexists. split; [by apply extract_match|].
      cbn [utr amount]. split; [done|]. rewrite Hlen. by eexists.
    + right. unfold extract_transaction_info, extract_with, extract_try.
      by rewrite E.
  - intros E. unfold extract_transaction_info, extract_with, extract_try.
    by rewrite E.
  - intros flt m s e E Hg Hf He.
    unfold extract_with, extract_try. rewrite E, Hg.
    cbn [float_of_group]. rewrite Hf. cbn [bind except_Exception].
    by rewrite He.
Qed.

Lemma C7_witness :
  extract_transaction_info otp_text = Return None /\
  extract_with failing_float example_text = Return None.
Proof.
  split.
  - apply (proj1 (proj2 (C7_extract_record_or_none otp_text))).
    vm_compute. reflexivity.
  - apply (proj2 (proj2 (C7_extract_record_or_none example_text))
             failing_float
             [(2%nat, codes "123456789012"); (1%nat, codes "1234.56")]
             (codes "1234.56") ValueError);
      vm_compute; reflexivity.
Defined.


Lemma extract_no_match text :
  re_search txn_pattern text = None ->
  extract_transaction_info text = Return None.
Proof.
  intros E. unfold extract_transaction_info, extract_with, extract_try.
  by rewrite E.
Qed.

(** ** C8: matching across lines *)

Lemma txn_text_match pre ds dd mid ref post a :
  has_marker pre = false ->
  ds <> [] -> digits ds -> length dd = 2%nat -> digits dd ->
  rmatch ref_tail (mid ++ ref_phrase ++ ref ++ post)
         [(1%nat, ds ++ dot ++ dd)] accept = Some a ->
  re_search txn_pattern (txn_text pre ds dd mid ref post) = Some a.
Proof.
  intros Hpre Hne Hds Hlen Hdd Ha. unfold txn_text.
  apply txn_search_at; [done|by eexists|].
  by apply txn_match_head.
Qed.

(** Claim C8.  Take any text that holds the amount phrase "Rs.<digits>.<two
    digits> is successfully credited" and, later, the reference phrase
    "reference number is <digits>", the currency marker not occurring
    earlier in the text.  Whatever stands between the two phrases, newlines
    included, extraction succeeds with the amount of the amount phrase; and
    when the text in between holds no reference token of its own and the
    reference is not followed by a further digit, the record is exactly that
    amount and that reference, hence the same for any two such texts in
    between, on one line or on several. *)
Theorem C8_cross_line_match :
  forall pre ds dd mid ref post,
    has_marker pre = false ->
    ds <> [] -> digits ds -> length dd = 2%nat -> digits dd ->
    ref <> [] -> digits ref ->
    (exists u, extract_transaction_info (txn_text pre ds dd mid ref post)
               = Return (Some (Txn (Dec (number (ds ++ dd)) 2) u))) /\
    (has_ref_token mid = false -> digit_ahead post = false ->
     extract_transaction_info (txn_text pre ds dd mid ref post)
     = Return (Some (Txn (Dec (number (ds ++ dd)) 2) ref)) /\
     forall mid', has_ref_token mid' = false ->
       extract_transaction_info (txn_text pre ds dd mid' ref post)
       = extract_transaction_info (txn_text pre ds dd mid ref post)).
Proof.
  intros pre ds dd mid ref post Hpre Hne Hds Hlen Hdd Hrne Href.
  assert (forall m, has_ref_token m = false -> digit_ahead post = false ->
            extract_transaction_info (txn_text pre ds dd m ref post)
            = Return (Some (Txn (Dec (number (ds ++ dd)) 2) ref))) as Hfree.
  { intros m Hm Hpost. rewrite <- Hlen. apply extract_match; try done.
    apply txn_text_match; try done. by apply ref_tail_first. }
  split.
  - destruct (ref_tail_accepts mid ref post [(1%nat, ds ++ dot ++ dd)]
                Hrne Href) as [u Hu].
    exists u. rewrite <- Hlen. apply extract_match; try done.
    by apply txn_text_match.
  - intros Hmid Hpost. split; [by apply Hfree|].
    intros mid' Hmid'. by rewrite !Hfree.
Qed.

Lemma digits_forallb s : forallb is_decimal s = true -> digits s.
Proof.
  intros H. apply Forall_forall. intros c Hc. apply list_elem_of_In in Hc.
  exact (proj1 (forallb_forall _ _) H c Hc).
Qed.

Lemma C8_witness :
  let pre := codes "Dear Customer," in
  let mid := codes " to your account." ++ [10; 10] ++
             codes "Details of the credit follow." ++ [10; 13; 10] ++
             codes "The " in
  let post := codes ". Thank you." in
  (exists u, extract_transaction_info
               (txn_text pre (codes "1234") (codes "56") mid
                         (codes "123456789012") post)
             = Return (Some (Txn (Dec 123456 2) u))) /\
  (has_ref_token mid = false -> digit_ahead post = false ->
   extract_transaction_info
     (txn_text pre (codes "1234") (codes "56") mid (codes "123456789012") post)
   = Return (Some (Txn (Dec 123456 2) (codes "123456789012"))) /\
   forall mid', has_ref_token mid' = false ->
     extract_transaction_info
       (txn_text pre (codes "1234") (codes "56") mid'
                 (codes "123456789012") post)
     = extract_transaction_info
         (txn_text pre (codes "1234") (codes "56") mid
                   (codes "123456789012") post)).
Proof.
  intros pre mid post.
  apply (C8_cross_line_match pre (codes "1234") (codes "56") mid
           (codes "123456789012") post).
  - vm_compute. reflexivity.
  - discriminate.
  - apply digits_forallb. vm_compute. reflexivity.
  - reflexivity.
  - apply digits_forallb. vm_compute. reflexivity.
  - discriminate.
  - apply digits_forallb. vm_compute. reflexivity.
Defined.

(** ** C10: amounts with a comma *)

Lemma comma_amount_no_match s :
  comma_amount_at s = true -> re_match txn_pattern s = None.
Proof.
  intros Hc. destruct (re_match txn_pattern s) as [g|] eqn:E; [|done].
  apply txn_match_Some in E
    as (ds & dd & mid & ref & post & -> & _ & Hds & _).
  unfold comma_amount_at in Hc.
  rewrite (proj2 (starts_with_true _ _)) in Hc by (by eexists).
  rewrite drop_app_length in Hc.
  change (dot ++ dd ++ credited ++ mid ++ ref_phrase ++ ref ++ post)
    with (0x2e :: dd ++ credited ++ mid ++ ref_phrase ++ ref ++ post) in Hc.
  rewrite drop_digits_run in Hc by done. done.
Qed.

(** Claim C10.  A text in which every occurrence of the currency marker is
    followed by an amount whose leading digits run into a comma yields
    [None], as does the sample "Rs.1,234.56 is successfully credited to your
    account ... reference number is 987654321"; and whenever extraction
    succeeds, the amount in the text is an unbroken run of digits, a dot and
    exactly two digits. *)
Theorem C10_comma_amount_rejected :
  (forall text, comma_amounts_only text = true ->
                extract_transaction_info text = Return None) /\
  extract_transaction_info comma_text = Return None /\
  (forall text t,
     extract_transaction_info text = Return (Some t) ->
     exists pre ds dd rest,
       text = pre ++ marker ++ ds ++ dot ++ dd ++ credited ++ rest /\
       ds <> [] /\ digits ds /\ length dd = 2%nat /\ digits dd).
Proof.
  split; [|split].
  - intros text H.
    apply extract_no_match.
    apply re_search_None. intros i _. apply comma_amount_no_match.
    unfold comma_amounts_only in H. apply negb_true_iff in H.
    pose proof (any_suffix_false _ _ i H) as Hi. cbn beta in Hi.
    by apply negb_false_iff in Hi.
  - vm_compute. reflexivity.
  - intros text t H.
    destruct (extract_Some _ _ H)
      as (pre & ds & dd & mid & post & Et & ? & ? & ? & ? & _).
    by exists pre, ds, dd, (mid ++ ref_phrase ++ utr t ++ post).
Qed.

Lemma C10_witness : extract_transaction_info comma_text = Return None.
Proof.
  apply (proj1 C10_comma_amount_rejected comma_text).
  vm_compute. reflexivity.
Defined.


(** * The body decoder *)

Section DecoderFacts.
Context {soup : BeautifulSoup}.

Lemma render_text_part p c :
  is_text_part p = true -> is_Some (render (mimeType p) c).
Proof.
  unfold is_text_part, render. intros H.
  apply andb_true_iff in H as [_ H]. apply orb_true_iff in H as [H|H].
  - rewrite H. by eexists.
  - rewrite H. destruct (mime_is (mimeType p) text_plain); by eexists.
Qed.

Lemma render_other p c :
  has_data p = true -> is_text_part p = false -> render (mimeType p) c = None.
Proof.
  unfold is_text_part, render. intros Hd H. rewrite Hd in H. cbn [andb] in H.
  apply orb_false_iff in H as [-> ->]. done.
Qed.

Lemma decodes_content p data :
  body_data p = Some data -> decodes p = true ->
  decode_data data = Return (content_of p).
Proof.
  unfold decodes, content_of. intros ->.
  by destruct (decode_data data).
Qed.

(** The loop returns on the first part with data that is plain text or
    HTML, whichever of the two it is. *)
Lemma parts_loop_find ps :
  forallb decodes ps = true ->
  parts_loop ps =
    Return (match find is_text_part ps with
            | Some p => render (mimeType p) (content_of p)
            | None => None
            end).
Proof.
  induction ps as [|p ps IH]; [done|]. cbn [forallb parts_loop find].
  intros H. apply andb_true_iff in H as [Hp Hps]. specialize (IH Hps).
  destruct (body_data p) as [[|c data]|] eqn:Ed.
  - unfold is_text_part, has_data. rewrite Ed. exact IH.
  - rewrite (decodes_content p _ Ed Hp). cbn [bind].
    destruct (is_text_part p) eqn:Et.
    + by destruct (render_text_part p (content_of p) Et) as [t ->].
    + rewrite render_other; [exact IH| |done].
      unfold has_data. by rewrite Ed.
  - unfold is_text_part, has_data. rewrite Ed. exact IH.
Qed.

Lemma find_app_first (f : part -> bool) before p after :
  forallb (fun q => negb (f q)) before = true -> f p = true ->
  find f (before ++ p :: after) = Some p.
Proof.
  induction before as [|q before IH]; cbn [forallb app find]; intros H Hp.
  - by rewrite Hp.
  - apply andb_true_iff in H as [Hq H]. apply negb_true_iff in Hq.
    rewrite Hq. by apply IH.
Qed.

End DecoderFacts.

(** ** C1: which part the decoder returns *)

Lemma str_eqb_eq a b : str_eqb a b = true <-> a = b.
Proof.
  revert b. induction a as [|x a IH]; intros [|y b]; cbn [str_eqb];
    try (split; [discriminate|done]); [done|].
  rewrite andb_true_iff, N.eqb_eq, IH. split; [by intros [-> ->]|].
  by intros [= -> ->].
Qed.

Lemma html_not_plain m :
  mime_is m text_html = true -> mime_is m text_plain = false.
Proof.
  destruct m as [s|]; [|done]. unfold mime_is.
  intros H. apply str_eqb_eq in H as ->. vm_compute. reflexivity.
Qed.

(** Claim C1, as amended.  On a multi-part payload whose body data decode,
    the decoder returns the text of the first part, in list order, that has
    body data and is text/plain or text/html: the stripped content for a
    plain-text part, the stripped text of the markup for an HTML part, and
    the empty string when there is no such part.  So a plain-text part that
    comes before every HTML part gives the plain text, and an HTML part that
    comes before every plain-text part gives the HTML-derived text. *)
Theorem C1_first_text_part_wins :
  forall (soup : BeautifulSoup) (own : part) (ps : list part),
    forallb decodes ps = true ->
    get_email_body (Payload own (Some ps))
    = Return (match find is_text_part ps with
              | Some p =>
                  if mime_is (mimeType p) text_plain
                  then strip (content_of p)
                  else strip (get_text (content_of p))
              | None => []
              end) /\
    (forall before p after,
       ps = before ++ p :: after ->
       forallb (fun q => negb (is_text_part q)) before = true ->
       is_plain_part p = true ->
       get_email_body (Payload own (Some ps)) = Return (strip (content_of p))) /\
    (forall before p after,
       ps = before ++ p :: after ->
       forallb (fun q => negb (is_text_part q)) before = true ->
       is_html_part p = true ->
       get_email_body (Payload own (Some ps))
       = Return (strip (get_text (content_of p)))).
Proof.
  intros soup own ps Hdec.
  assert (get_email_body (Payload own (Some ps))
          = Return (match find is_text_part ps with
                    | Some p =>
                        if mime_is (mimeType p) text_plain
                        then strip (content_of p)
                        else strip (get_text (content_of p))
                    | None => []
                    end)) as Hgen.
  { unfold get_email_body. cbn [parts]. rewrite (parts_loop_find ps Hdec).
    cbn [bind]. destruct (find is_text_part ps) as [p|] eqn:Ef; [|done].
    apply find_some in Ef as [_ Ht]. unfold render.
    destruct (mime_is (mimeType p) text_plain) eqn:Epl; [done|].
    unfold is_text_part in Ht. rewrite Epl in Ht.
    apply andb_true_iff in Ht as [_ Ht]. cbn [orb] in Ht. by rewrite Ht. }
  split; [exact Hgen|]. split.
  - intros before p after -> Hbefore Hp. rewrite Hgen.
    unfold is_plain_part in Hp. apply andb_true_iff in Hp as [Hd Hm].
    rewrite (find_app_first is_text_part before p after Hbefore).
    + by rewrite Hm.
    + unfold is_text_part. by rewrite Hd, Hm.
  - intros before p after -> Hbefore Hp. rewrite Hgen.
    unfold is_html_part in Hp. apply andb_true_iff in Hp as [Hd Hm].
    rewrite (find_app_first is_text_part before p after Hbefore).
    + by rewrite (html_not_plain _ Hm).
    + unfold is_text_part. rewrite Hd, Hm. by rewrite orb_true_r.
Qed.


(** With an HTML part first, the decoder returns the text of the HTML part
    although a plain-text part with data follows: the claim as stated
    fails. *)
Lemma C1_counterexample :
  existsb is_plain_part [html_part; plain_part] = true /\
  existsb is_html_part [html_part; plain_part] = true /\
  @spec_decode tag_stripper [html_part; plain_part] = codes "plain body" /\
  @get_email_body tag_stripper html_first = Return (codes "HTML body") /\
  @get_email_body tag_stripper html_first
  <> Return (@spec_decode tag_stripper [html_part; plain_part]).
Proof.
  split; [vm_compute; reflexivity|]. split; [vm_compute; reflexivity|].
  split; [vm_compute; reflexivity|]. split; [vm_compute; reflexivity|].
  vm_compute. discriminate.
Qed.

Lemma C1_witness :
  @get_email_body tag_stripper (Payload multipart (Some [plain_part; html_part]))
  = Return (strip (content_of plain_part)) /\
  @get_email_body tag_stripper (Payload multipart (Some [html_part; plain_part]))
  = Return (strip (@get_text tag_stripper (content_of html_part))).
Proof.
  assert (forallb decodes [plain_part; html_part] = true) as H1
    by (vm_compute; reflexivity).
  assert (forallb decodes [html_part; plain_part] = true) as H2
    by (vm_compute; reflexivity).
  split.
  - apply (proj1 (proj2 (C1_first_text_part_wins tag_stripper multipart
                           [plain_part; html_part] H1))
             [] plain_part [html_part]); vm_compute; reflexivity.
  - apply (proj2 (proj2 (C1_first_text_part_wins tag_stripper multipart
                           [html_part; plain_part] H2))
             [] html_part [plain_part]); vm_compute; reflexivity.
Defined.

(** ** C4: canonical base64 always decodes *)



Section Loop.
Implicit Types (s out : bytes) (l p v x : N).





End Loop.











Example garbled_payload_empty :
  @get_email_body tag_stripper garbled_payload = Return [].
Proof. vm_compute. reflexivity. Qed.

Example bad_payload_raises :
  @get_email_body tag_stripper bad_payload = Raise BinasciiError.
Proof. vm_compute. reflexivity. Qed.


(** * The polling loop *)

Lemma extract_returns text :
  exists r, extract_transaction_info text = Return r.
Proof.
  destruct (extract_try_returns text) as [r Hr]. exists r.
  unfold extract_transaction_info, extract_with. by rewrite Hr.
Qed.

Section PollerFacts.
Context {soup : BeautifulSoup}.
Implicit Types (t : tick) (id : msg_id) (st : state) (nf : bool).

Lemma process_seen t id nf st :
  id ∈ seen st -> process_message t id nf st = (Return nf, st).
Proof.
  intros H. unfold process_message, mbind, has_seen.
  by rewrite bool_decide_eq_true_2.
Qed.

Lemma process_fetch_raises t id nf st e :
  id ∉ seen st -> get_result t id = Raise e ->
  process_message t id nf st
  = (Raise e, State (seen st) (trace st ++ [Fetch id])).
Proof.
  intros H Hg. unfold process_message, mbind, has_seen, log, lift.
  rewrite bool_decide_eq_false_2 by done. by rewrite Hg.
Qed.

Lemma process_decode_raises t id nf st msg_data e :
  id ∉ seen st -> get_result t id = Return msg_data ->
  get_email_body (default empty_payload msg_data) = Raise e ->
  process_message t id nf st
  = (Raise e, State (seen st) (trace st ++ [Fetch id; Decode id])).
Proof.
  intros H Hg Hd. unfold process_message, mbind, has_seen, log, lift.
  rewrite bool_decide_eq_false_2 by done. rewrite Hg. cbn [seen trace].
  rewrite Hd. by rewrite <- app_assoc.
Qed.

Lemma process_returns t id nf st msg_data body_text r :
  id ∉ seen st -> get_result t id = Return msg_data ->
  get_email_body (default empty_payload msg_data) = Return body_text ->
  extract_transaction_info body_text = Return r ->
  process_message t id nf st
  = (Return (match r with Some _ => true | None => nf end),
     State ({[id]} ∪ seen st) (trace st ++ processed id r)).
Proof.
  intros H Hg Hd He. unfold process_message, mbind, has_seen, log, lift,
    mark_seen, ret, processed.
  rewrite bool_decide_eq_false_2 by done. rewrite Hg. cbn [seen trace].
  rewrite Hd, He. destruct r as [x|]; cbn [seen trace app];
    by rewrite <- !app_assoc.
Qed.

(** The three ways the body of the loop can go. *)
Lemma process_cases t id nf st :
  (id ∈ seen st /\ process_message t id nf st = (Return nf, st)) \/
  ((id ∉ seen st) /\ body_of t id = None /\
   exists e new,
     process_message t id nf st
     = (Raise e, State (seen st) (trace st ++ new)) /\
     (new = [Fetch id] \/ new = [Fetch id; Decode id])) \/
  ((id ∉ seen st) /\ is_Some (body_of t id) /\
   process_message t id nf st
   = (Return (match txn_of t id with Some _ => true | None => nf end),
      State ({[id]} ∪ seen st) (trace st ++ processed id (txn_of t id)))).
Proof.
  destruct (decide (id ∈ seen st)) as [Hin|Hnin].
  { left. split; [done|]. by apply process_seen. }
  right. unfold txn_of, body_of.
  destruct (get_result t id) as [msg_data|e] eqn:Hg.
  - destruct (get_email_body (default empty_payload msg_data))
      as [body_text|e] eqn:Hd.
    + right. split; [done|]. split; [by eexists|].
      destruct (extract_returns body_text) as [r Hr]. rewrite Hr.
      by apply (process_returns t id nf st msg_data body_text r).
    + left. split; [done|]. split; [done|]. exists e, [Fetch id; Decode id].
      split; [|by right].
      by apply (process_decode_raises t id nf st msg_data e).
  - left. split; [done|]. split; [done|]. exists e, [Fetch id].
    split; [|by left]. by apply process_fetch_raises.
Qed.

End PollerFacts.


(** ** Running computations in sequence *)

Lemma mbind_run {A B} (m : M A) (f : A -> M B) st r st' :
  mbind m f st = (r, st') ->
  (exists a st1, m st = (Return a, st1) /\ f a st1 = (r, st')) \/
  (exists e, m st = (Raise e, st') /\ r = Raise e).
Proof.
  unfold mbind. destruct (m st) as [[a|e] st1]; intros H.
  - left. by exists a, st1.
  - right. injection H as <- <-. by exists e.
Qed.

Lemma respects_ret {A} R (a : A) : Reflexive R -> respects R (ret a).
Proof. intros HR st r st' [= <- <-]. apply HR. Qed.

Lemma respects_lift {A} R (x : res A) : Reflexive R -> respects R (lift x).
Proof. intros HR st r st' [= <- <-]. apply HR. Qed.

Lemma respects_bind {A B} R (m : M A) (f : A -> M B) :
  Transitive R -> respects R m -> (forall a, respects R (f a)) ->
  respects R (mbind m f).
Proof.
  intros HT Hm Hf st r st' H.
  apply mbind_run in H as [(a & st1 & H1 & H2)|(e & H1 & _)].
  - exact (HT _ _ _ (Hm _ _ _ H1) (Hf a _ _ _ H2)).
  - exact (Hm _ _ _ H1).
Qed.

(** ** Counting marks *)

Lemma count_marks_app id tr1 tr2 :
  count_marks id (tr1 ++ tr2)
  = (count_marks id tr1 + count_marks id tr2)%nat.
Proof.
  induction tr1 as [|e tr1 IH]; [done|].
  destruct e as [| | | | | |j| | |]; cbn [app count_marks]; try done.
  destruct (str_eqb j id); [|done]. by rewrite IH.
Qed.

Lemma str_eqb_decide a b : str_eqb a b = bool_decide (a = b).
Proof.
  destruct (str_eqb a b) eqn:E.
  - apply str_eqb_eq in E. by rewrite bool_decide_eq_true_2.
  - rewrite bool_decide_eq_false_2; [done|]. intros H.
    apply str_eqb_eq in H. congruence.
Qed.

Lemma count_marks_processed id j r :
  count_marks id (processed j r)
  = if bool_decide (j = id) then 1%nat else 0%nat.
Proof.
  unfold processed. destruct r; cbn [app count_marks];
    by rewrite str_eqb_decide.
Qed.

(** ** The relation [grows] *)

Global Instance grows_refl : Reflexive grows.
Proof.
  intros st. split; [done|]. split; [|done]. exists []. by rewrite app_nil_r.
Qed.

Global Instance grows_trans : Transitive grows.
Proof.
  intros a b c (S1 & [n1 T1] & C1) (S2 & [n2 T2] & C2).
  split; [set_solver|]. split; [|tauto].
  exists (n1 ++ n2). by rewrite T2, T1, app_assoc.
Qed.

(** Printing and the calls without a message leave the seen set alone. *)
Lemma grows_append st new :
  count_marks_free new ->
  grows st (State (seen st) (trace st ++ new)).
Proof.
  intros [Hm He]. split; [done|]. split; [by exists new|].
  intros [C1 C2]. split; cbn [seen trace].
  - intros id. by rewrite count_marks_app, Hm, Nat.add_0_r.
  - intros id r Hin. apply elem_of_app in Hin as [Hin|Hin]; [by eapply C2|].
    by destruct (He id r).
Qed.


Section Grows.
Context {soup : BeautifulSoup}.

Lemma respects_log_plain R e :
  (forall st, R st (State (seen st) (trace st ++ [e]))) ->
  respects R (log e).
Proof. intros H st r st' [= <- <-]. apply H. Qed.

Lemma free_one e :
  (forall id, e <> MarkSeen id) -> (forall id r, e <> Extract id r) ->
  count_marks_free [e].
Proof.
  intros Hm He. split.
  - intros id. destruct e; try done. by destruct (Hm id0).
  - intros id r Hin. apply list_elem_of_singleton in Hin. by destruct (He id r).
Qed.

Lemma free_fetch id : count_marks_free [Fetch id].
Proof. by apply free_one. Qed.

Lemma free_fetch_decode id : count_marks_free [Fetch id; Decode id].
Proof.
  split; [done|]. intros j r Hin.
  apply elem_of_cons in Hin as [?|Hin]; [done|].
  by apply list_elem_of_singleton in Hin.
Qed.

Lemma grows_processed st id r :
  id ∉ seen st ->
  grows st (State ({[id]} ∪ seen st) (trace st ++ processed id r)).
Proof.
  intros Hnin. split; [set_solver|]. split; [by eexists|].
  intros [C1 C2]. split; cbn [seen trace].
  - intros j. rewrite count_marks_app, count_marks_processed, C1.
    destruct (decide (id = j)) as [<-|Hne].
    + rewrite (bool_decide_eq_false_2 _ Hnin).
      rewrite (bool_decide_eq_true_2 (id = id)) by done.
      rewrite bool_decide_eq_true_2 by set_solver. done.
    + rewrite (bool_decide_eq_false_2 (id = j)) by done.
      destruct (decide (j ∈ seen st)) as [Hin|Hn].
      * rewrite (bool_decide_eq_true_2 _ Hin).
        rewrite bool_decide_eq_true_2; [done|]. by apply elem_of_union_r.
      * rewrite (bool_decide_eq_false_2 _ Hn).
        rewrite bool_decide_eq_false_2; [done|].
        intros [Hj%elem_of_singleton|Hj]%elem_of_union; congruence.
  - intros j r' Hin. apply elem_of_app in Hin as [Hin|Hin].
    + apply elem_of_union_r. by eapply C2.
    + apply elem_of_union_l, elem_of_singleton. unfold processed in Hin.
      destruct r; cbn [app] in Hin;
        repeat (apply elem_of_cons in Hin as [Hin|Hin]; [congruence|]);
        by apply elem_of_nil in Hin.
Qed.

Lemma process_grows t id nf : respects grows (process_message t id nf).
Proof.
  intros st r st' H.
  destruct (process_cases t id nf st)
    as [[_ E]|[(Hn & _ & e & new & E & Hnew)|(Hn & _ & E)]];
    rewrite E in H; injection H as <- <-.
  - reflexivity.
  - apply grows_append.
    destruct Hnew as [->| ->]; [apply free_fetch|apply free_fetch_decode].
  - by apply grows_processed.
Qed.

Lemma for_messages_grows t messages nf :
  respects grows (for_messages t messages nf).
Proof.
  revert nf. induction messages as [|id messages IH]; intros nf;
    cbn [for_messages].
  - apply respects_ret; apply _.
  - apply respects_bind; [apply _|apply process_grows|].
    intros nf'. apply IH.
Qed.

Lemma log_grows e :
  (forall id, e <> MarkSeen id) -> (forall id r, e <> Extract id r) ->
  respects grows (log e).
Proof.
  intros Hm He. apply respects_log_plain. intros st.
  by apply grows_append, free_one.
Qed.

Lemma run_cycle_grows t : respects grows (run_cycle t).
Proof.
  unfold run_cycle.
  apply respects_bind; [apply _|by apply log_grows|]. intros _.
  apply respects_bind; [apply _|apply respects_lift; apply _|].
  intros messages.
  apply respects_bind; [apply _|apply for_messages_grows|]. intros nf.
  apply respects_bind; [apply _| |].
  { destruct nf; [apply respects_ret; apply _|by apply log_grows]. }
  intros _. apply respects_bind; [apply _|by apply log_grows|].
  intros _. apply respects_lift; apply _.
Qed.

Lemma poll_grows ticks : respects grows (poll ticks).
Proof.
  induction ticks as [|t ticks IH]; cbn [poll].
  - apply respects_ret; apply _.
  - apply respects_bind; [apply _|apply run_cycle_grows|]. by intros _.
Qed.

Lemma poll_app ticks more st :
  poll (ticks ++ more) st
  = match poll ticks st with
    | (Return _, st1) => poll more st1
    | (Raise e, st1) => (Raise e, st1)
    end.
Proof.
  revert st. induction ticks as [|t ticks IH]; intros st; [done|].
  cbn [app poll]. unfold mbind.
  destruct (run_cycle t st) as [[[]|e] st1]; [apply IH|done].
Qed.

Lemma consistent_initial : consistent initial.
Proof.
  split; cbn [initial seen trace].
  - intros id. by rewrite bool_decide_eq_false_2 by set_solver.
  - intros id r Hin. by apply list_elem_of_singleton in Hin.
Qed.

Lemma main_state ticks :
  exists r st, poll ticks initial = (r, st) /\
               seen (snd (main ticks)) = seen st /\
               (trace (snd (main ticks)) = trace st \/
                trace (snd (main ticks)) = trace st ++ [PrintStopped]).
Proof.
  unfold main. destruct (poll ticks initial) as [[[]|e] st] eqn:E.
  - exists (Return tt), st. cbn [snd]. tauto.
  - exists (Raise e), st. destruct e; cbn [snd seen trace]; tauto.
Qed.

Lemma main_consistent ticks : consistent (snd (main ticks)).
Proof.
  destruct (main_state ticks) as (r & st & E & Hs & Ht).
  destruct (poll_grows ticks _ _ _ E) as (_ & _ & C).
  specialize (C consistent_initial). destruct Ht as [Ht|Ht].
  - destruct C as [C1 C2]. split.
    + intros id. rewrite Ht, Hs. apply C1.
    + intros id x. rewrite Ht, Hs. apply C2.
  - assert (grows st (snd (main ticks))) as (_ & _ & G).
    { replace (snd (main ticks))
        with (State (seen st) (trace st ++ [PrintStopped])).
      - by apply grows_append, free_one.
      - destruct (snd (main ticks)) as [s0 t0]; cbn [seen trace] in *.
        by subst. }
    by apply G.
Qed.

End Grows.


(** ** C2: marking seen *)

Lemma main_seen_monotone `{BeautifulSoup} ticks more :
  seen (snd (main ticks)) ⊆ seen (snd (main (ticks ++ more))).
Proof.
  destruct (main_state ticks) as (r & st & E & -> & _).
  destruct (main_state (ticks ++ more)) as (r2 & st2 & E2 & -> & _).
  rewrite poll_app, E in E2. destruct r as [[]|e].
  - by destruct (poll_grows more _ _ _ E2) as (Hs & _).
  - by injection E2 as _ <-.
Qed.

(** Claim C2.  In every run of the program, over any number of rounds and
    whatever the provider answers: an identifier whose message was processed
    up to extraction, whether extraction gave a record or [None], is in the
    seen set and was added to it exactly once; no identifier is added more
    than once; the seen set holds exactly the identifiers added; and the
    seen set never loses an element, over further rounds, over a round, or
    over the processing of one message. *)
Theorem C2_marked_seen_exactly_once :
  forall (soup : BeautifulSoup) (ticks : list tick),
    (forall id r,
       Extract id r ∈ trace (snd (main ticks)) ->
       id ∈ seen (snd (main ticks)) /\
       count_marks id (trace (snd (main ticks))) = 1%nat) /\
    (forall id, (count_marks id (trace (snd (main ticks))) <= 1)%nat) /\
    (forall id, id ∈ seen (snd (main ticks)) <->
                count_marks id (trace (snd (main ticks))) = 1%nat) /\
    (forall more, seen (snd (main ticks)) ⊆ seen (snd (main (ticks ++ more)))) /\
    (forall t st r st', run_cycle t st = (r, st') -> seen st ⊆ seen st') /\
    (forall t id nf st r st',
       process_message t id nf st = (r, st') -> seen st ⊆ seen st').
Proof.
  intros soup ticks. destruct (main_consistent ticks) as [C1 C2].
  assert (forall id, id ∈ seen (snd (main ticks)) <->
                     count_marks id (trace (snd (main ticks))) = 1%nat) as Hiff.
  { intros id. rewrite C1. case_bool_decide; split; done. }
  split; [|split; [|split; [|split; [|split]]]].
  - intros id r Hin. pose proof (C2 id r Hin) as Hs. split; [done|].
    by apply Hiff.
  - intros id. rewrite C1. case_bool_decide; lia.
  - exact Hiff.
  - intros more. apply main_seen_monotone.
  - intros t st r st' E. by destruct (run_cycle_grows t _ _ _ E).
  - intros t id nf st r st' E. by destruct (process_grows t id nf _ _ _ E).
Qed.

Lemma C2_witness :
  m_otp ∈ seen (snd (@main tag_stripper [tick_ok; tick_ok])) /\
  count_marks m_otp (trace (snd (@main tag_stripper [tick_ok; tick_ok])))
  = 1%nat.
Proof.
  apply (proj1 (C2_marked_seen_exactly_once tag_stripper [tick_ok; tick_ok])
           m_otp None).
  apply (list_elem_of_lookup_2 _ 4%nat). vm_compute. reflexivity.
Defined.


(** ** C3: seen messages are skipped *)

Section Skip.
Context {soup : BeautifulSoup}.

Global Instance leaves_alone_refl id : Reflexive (leaves_alone id).
Proof.
  intros st Hin. split; [done|]. exists []. by rewrite app_nil_r.
Qed.

Global Instance leaves_alone_trans id : Transitive (leaves_alone id).
Proof.
  intros a b c H1 H2 Hin.
  destruct (H1 Hin) as (Hb & n1 & T1 & F1).
  destruct (H2 Hb) as (Hc & n2 & T2 & F2).
  split; [done|]. exists (n1 ++ n2). split.
  - by rewrite T2, T1, app_assoc.
  - by apply Forall_app.
Qed.

Lemma leaves_alone_append id st new :
  Forall (fun e => event_id e <> Some id) new ->
  leaves_alone id st (State (seen st) (trace st ++ new)).
Proof. intros H Hin. split; [done|]. by exists new. Qed.

Lemma process_leaves_alone id t j nf :
  respects (leaves_alone id) (process_message t j nf).
Proof.
  intros st r st' H Hin.
  assert (j ∉ seen st -> j <> id) as Hne by (intros ? ->; done).
  destruct (process_cases t j nf st)
    as [[_ E]|[(Hn & _ & e & new & E & Hnew)|(Hn & _ & E)]];
    rewrite E in H; injection H as <- <-.
  - by apply leaves_alone_refl.
  - apply leaves_alone_append; [|done]. specialize (Hne Hn).
    destruct Hnew as [->| ->]; repeat constructor; cbn [event_id]; congruence.
  - cbn [seen trace]. split; [by apply elem_of_union_r|].
    eexists. split; [done|]. specialize (Hne Hn). unfold processed.
    destruct (txn_of t j); repeat constructor; cbn [event_id]; congruence.
Qed.

Lemma for_messages_leaves_alone id t messages nf :
  respects (leaves_alone id) (for_messages t messages nf).
Proof.
  revert nf. induction messages as [|j messages IH]; intros nf;
    cbn [for_messages].
  - apply respects_ret; apply _.
  - apply respects_bind; [apply _|apply process_leaves_alone|].
    intros nf'. apply IH.
Qed.

Lemma log_leaves_alone id e :
  event_id e = None -> respects (leaves_alone id) (log e).
Proof.
  intros He. apply respects_log_plain. intros st.
  apply leaves_alone_append. repeat constructor. by rewrite He.
Qed.

Lemma run_cycle_leaves_alone id t : respects (leaves_alone id) (run_cycle t).
Proof.
  unfold run_cycle.
  apply respects_bind; [apply _|by apply log_leaves_alone|]. intros _.
  apply respects_bind; [apply _|apply respects_lift; apply _|].
  intros messages.
  apply respects_bind; [apply _|apply for_messages_leaves_alone|]. intros nf.
  apply respects_bind; [apply _| |].
  { destruct nf; [apply respects_ret; apply _|by apply log_leaves_alone]. }
  intros _. apply respects_bind; [apply _|by apply log_leaves_alone|].
  intros _. apply respects_lift; apply _.
Qed.

(** A seen identifier in the list changes nothing. *)
Lemma for_messages_skip id t messages nf st :
  id ∈ seen st ->
  for_messages t messages nf st = for_messages t (remove_id id messages) nf st.
Proof.
  revert nf st. induction messages as [|j messages IH]; intros nf st Hin;
    [done|].
  cbn [remove_id]. destruct (str_eqb j id) eqn:Ej.
  - apply str_eqb_eq in Ej as ->. cbn [for_messages]. unfold mbind.
    rewrite (process_seen t id nf st Hin). by apply IH.
  - cbn [for_messages]. unfold mbind.
    destruct (process_message t j nf st) as [[nf'|e] st1] eqn:E; [|done].
    apply IH. by apply (process_grows t j nf _ _ _ E).
Qed.

Lemma for_messages_same_fetch l1 s1 l2 s2 g messages nf st :
  for_messages (Tick l1 g s1) messages nf st
  = for_messages (Tick l2 g s2) messages nf st.
Proof.
  revert nf st. induction messages as [|j messages IH]; intros nf st; [done|].
  cbn [for_messages]. unfold mbind.
  change (process_message (Tick l1 g s1) j nf st)
    with (process_message (Tick l2 g s2) j nf st).
  destruct (process_message (Tick l2 g s2) j nf st) as [[nf'|e] st1];
    [apply IH|done].
Qed.

(** A round that returned has marked every identifier it listed. *)
Lemma for_messages_marks_all t messages nf st nf' st' :
  for_messages t messages nf st = (Return nf', st') ->
  forall id, id ∈ messages -> id ∈ seen st'.
Proof.
  revert nf st. induction messages as [|j messages IH]; intros nf st H id Hin.
  - by apply elem_of_nil in Hin.
  - cbn [for_messages] in H.
    apply mbind_run in H as [(a & st1 & H1 & H2)|(e & _ & ?)]; [|done].
    apply elem_of_cons in Hin as [->|Hin]; [|by eapply IH].
    destruct (for_messages_grows t messages a _ _ _ H2) as (Hs & _).
    apply Hs.
    destruct (process_cases t j nf st)
      as [[Hj E]|[(Hn & _ & e & new & E & Hnew)|(Hn & _ & E)]];
      rewrite E in H1; [injection H1 as _ <-; done|done|].
    injection H1 as _ <-. cbn [seen]. by apply elem_of_union_l, elem_of_singleton.
Qed.

Lemma run_cycle_marks_all t messages st st' :
  list_result t = Return messages ->
  run_cycle t st = (Return tt, st') ->
  forall id, id ∈ messages -> id ∈ seen st'.
Proof.
  intros Hl H id Hin. unfold run_cycle in H.
  apply mbind_run in H as [([] & st1 & _ & H)|(e & _ & ?)]; [|done].
  apply mbind_run in H as [(ms & st2 & H0 & H)|(e & _ & ?)]; [|done].
  unfold lift in H0. rewrite Hl in H0. injection H0 as <- <-.
  apply mbind_run in H as [(nf & st3 & H3 & H)|(e & _ & ?)]; [|done].
  pose proof (for_messages_marks_all _ _ _ _ _ _ H3 id Hin) as Hs.
  assert (respects grows
            (_ <~ (if nf then ret tt else log PrintDot) ;;
             _ <~ log Sleep ;; lift (sleep_result t))) as Htail.
  { apply respects_bind; [apply _| |].
    { destruct nf; [apply respects_ret; apply _|by apply log_grows]. }
    intros _. apply respects_bind; [apply _|by apply log_grows|].
    intros _. apply respects_lift; apply _. }
  destruct (Htail _ _ _ H) as (Hg & _). by apply Hg.
Qed.

End Skip.


Lemma run_cycle_without `{BeautifulSoup} id t st :
  id ∈ seen st -> run_cycle t st = run_cycle (without id t) st.
Proof.
  intros Hin. destruct t as [[ms|e] g s]; [|done].
  unfold run_cycle, without, mbind, log, lift.
  cbn [list_result get_result sleep_result].
  rewrite (for_messages_same_fetch (Return ms) s
             (Return (remove_id id ms)) s g ms false).
  by rewrite (for_messages_skip id _ ms false
                (State (seen st) (trace st ++ [Query])) Hin).
Qed.

(** Claim C3.  Every identifier listed by a round that ran to its end is in
    the seen set afterwards; and for an identifier in the seen set, the body
    of the loop returns at once with the state and the flag unchanged, a
    list of messages is processed exactly as the list without that
    identifier, a round runs exactly as the round whose query answer lacks
    the identifier, and no event of the round (fetch, decode, extraction,
    print or add) is about that identifier. *)
Theorem C3_seen_messages_skipped :
  forall (soup : BeautifulSoup),
    (forall t0 st0 messages st id,
       list_result t0 = Return messages ->
       run_cycle t0 st0 = (Return tt, st) ->
       id ∈ messages -> id ∈ seen st) /\
    (forall t id st,
       id ∈ seen st ->
       (forall nf, process_message t id nf st = (Return nf, st)) /\
       (forall messages nf,
          for_messages t messages nf st
          = for_messages t (remove_id id messages) nf st) /\
       run_cycle t st = run_cycle (without id t) st /\
       (forall r st',
          run_cycle t st = (r, st') ->
          exists new, trace st' = trace st ++ new /\
                      Forall (fun e => event_id e <> Some id) new)).
Proof.
  intros soup. split.
  - intros t0 st0 messages st id Hl H Hin.
    by apply (run_cycle_marks_all t0 messages st0 st Hl H).
  - intros t id st Hin. split; [|split; [|split]].
    + intros nf. by apply process_seen.
    + intros messages nf. by apply for_messages_skip.
    + by apply run_cycle_without.
    + intros r st' H.
      by destruct (run_cycle_leaves_alone id t _ _ _ H Hin) as (_ & Hnew).
Qed.

Lemma C3_witness :
  (forall nf,
     @process_message tag_stripper tick_ok m_credit nf
       (snd (@main tag_stripper [tick_ok]))
     = (Return nf, snd (@main tag_stripper [tick_ok]))) /\
  (forall messages nf,
     @for_messages tag_stripper tick_ok messages nf
       (snd (@main tag_stripper [tick_ok]))
     = @for_messages tag_stripper tick_ok (remove_id m_credit messages) nf
         (snd (@main tag_stripper [tick_ok]))) /\
  @run_cycle tag_stripper tick_ok (snd (@main tag_stripper [tick_ok]))
  = @run_cycle tag_stripper (without m_credit tick_ok)
      (snd (@main tag_stripper [tick_ok])) /\
  (forall r st',
     @run_cycle tag_stripper tick_ok (snd (@main tag_stripper [tick_ok]))
     = (r, st') ->
     exists new,
       trace st' = trace (snd (@main tag_stripper [tick_ok])) ++ new /\
       Forall (fun e => event_id e <> Some m_credit) new).
Proof.
  apply (proj2 (C3_seen_messages_skipped tag_stripper) tick_ok m_credit
           (snd (@main tag_stripper [tick_ok]))).
  apply (bool_decide_unpack _). vm_compute. exact I.
Defined.


(** ** C5: failures within a round *)

(** The malformed mail comes first: the decoder raises, the exception
    leaves the loop, the mail is not marked seen and the credit mail listed
    after it is never fetched, although it reads and extracts well: the
    claim as stated fails. *)
Lemma C5_counterexample :
  fst (@run_cycle tag_stripper tick_bad initial) = Raise BinasciiError /\
  trace (snd (@run_cycle tag_stripper tick_bad initial))
  = [PrintStart; Query; Fetch m_bad; Decode m_bad] /\
  (m_bad ∉ seen (snd (@run_cycle tag_stripper tick_bad initial))) /\
  (Fetch m_credit ∉ trace (snd (@run_cycle tag_stripper tick_bad initial))) /\
  @txn_of tag_stripper tick_bad m_credit
  = Some (Txn (Dec 1250 2) (codes "42")).
Proof.
  assert (trace (snd (@run_cycle tag_stripper tick_bad initial))
          = [PrintStart; Query; Fetch m_bad; Decode m_bad]) as Ht
    by (vm_compute; reflexivity).
  split; [vm_compute; reflexivity|]. split; [exact Ht|].
  split; [|split].
  - apply (bool_decide_unpack _). vm_compute. exact I.
  - rewrite Ht. intros H.
    repeat (apply elem_of_cons in H as [H|H]; [discriminate|]).
    by apply elem_of_nil in H.
  - vm_compute. reflexivity.
Qed.

Section Isolation.
Context {soup : BeautifulSoup}.

Lemma for_messages_readable t messages nf st :
  forallb (readable t) messages = true ->
  exists nf' st',
    for_messages t messages nf st = (Return nf', st') /\
    (forall id, id ∈ messages -> id ∈ seen st') /\
    (forall id, id ∈ messages -> id ∉ seen st ->
       exists before after,
         trace st' = before ++ processed id (txn_of t id) ++ after).
Proof.
  revert nf st. induction messages as [|j messages IH]; intros nf st Hr.
  - exists nf, st. split; [done|]. split; intros id Hin;
      by apply elem_of_nil in Hin.
  - cbn [forallb] in Hr. apply andb_true_iff in Hr as [Hj Hr].
    unfold readable in Hj. cbn [for_messages]. unfold mbind.
    destruct (process_cases t j nf st)
      as [[Hin E]|[(Hn & Hb & _)|(Hn & _ & E)]]; [| |]; try rewrite E.
    + destruct (IH nf st Hr) as (nf' & st' & E' & Hs & Hp).
      exists nf', st'. split; [done|].
      pose proof (for_messages_grows t messages nf _ _ _ E') as (Hg & _).
      split.
      * intros id [->|Hid]%elem_of_cons; [by apply Hg|by apply Hs].
      * intros id [->|Hid]%elem_of_cons Hnin; [done|by apply Hp].
    + by rewrite Hb in Hj.
    + destruct (IH (match txn_of t j with Some _ => true | None => nf end)
                  (State ({[j]} ∪ seen st)
                     (trace st ++ processed j (txn_of t j))) Hr)
        as (nf' & st' & E' & Hs & Hp).
      exists nf', st'. split; [done|].
      pose proof (for_messages_grows t messages _ _ _ _ E')
        as (Hg & [new Hnew] & _).
      cbn [seen trace] in Hg, Hnew.
      split.
      * intros id [->|Hid]%elem_of_cons; [|by apply Hs].
        by apply Hg, elem_of_union_l, elem_of_singleton.
      * intros id Hid Hnin. destruct (decide (id = j)) as [->|Hne].
        -- exists (trace st), new. by rewrite Hnew, <- app_assoc.
        -- apply elem_of_cons in Hid as [?|Hid]; [done|].
           apply Hp; [done|]. cbn [seen].
           intros [?%elem_of_singleton|?]%elem_of_union; done.
Qed.

End Isolation.

(** Claim C5, as amended.  In a round in which every listed message can be
    fetched and decoded, the round is not aborted, whatever extraction gives
    on each message: every listed identifier is in the seen set at the end,
    and every one that was not seen before is fetched, decoded, extracted,
    printed when extraction gives a record, and marked seen; a message on
    which extraction fails only contributes no print.  (A message whose body
    data make the decoder raise is outside this statement: there the
    exception ends the round.) *)
Theorem C5_extraction_failure_isolated :
  forall (soup : BeautifulSoup) (t : tick) (messages : list msg_id)
         (st : state),
    list_result t = Return messages ->
    forallb (readable t) messages = true ->
    exists st',
      run_cycle t st = (sleep_result t, st') /\
      (forall id, id ∈ messages -> id ∈ seen st') /\
      (forall id, id ∈ messages -> id ∉ seen st ->
         exists before after,
           trace st' = before ++ processed id (txn_of t id) ++ after).
Proof.
  intros soup t messages st Hl Hr.
  destruct (for_messages_readable t messages false
              (State (seen st) (trace st ++ [Query])) Hr)
    as (nf & st1 & E & Hs & Hp).
  unfold run_cycle, mbind, log, lift. rewrite Hl, E.
  destruct nf.
  - eexists. split; [reflexivity|]. cbn [seen trace]. split; [done|].
    intros id Hid Hnin. destruct (Hp id Hid Hnin) as (before & after & ->).
    exists before, (after ++ [Sleep]). by rewrite <- !app_assoc.
  - eexists. split; [reflexivity|]. cbn [seen trace]. split; [done|].
    intros id Hid Hnin. destruct (Hp id Hid Hnin) as (before & after & ->).
    exists before, (after ++ [PrintDot] ++ [Sleep]). by rewrite <- !app_assoc.
Qed.

Lemma C5_witness :
  exists st',
    @run_cycle tag_stripper tick_ok initial = (sleep_result tick_ok, st') /\
    (forall id, id ∈ [m_otp; m_credit] -> id ∈ seen st') /\
    (forall id, id ∈ [m_otp; m_credit] -> id ∉ seen initial ->
       exists before after,
         trace st'
         = before ++ processed id (@txn_of tag_stripper tick_ok id) ++ after).
Proof.
  apply (C5_extraction_failure_isolated tag_stripper tick_ok
           [m_otp; m_credit] initial).
  - reflexivity.
  - vm_compute. reflexivity.
Defined.

Example otp_mail_gives_no_record :
  @txn_of tag_stripper tick_ok m_otp = None.
Proof. vm_compute. reflexivity. Qed.


(** ** C9: provider failures *)

(** The query of the first round fails with a network error: [main] ends
    with that exception and the second round is never run, so nothing is
    retried: the claim as stated fails. *)
Lemma C9_counterexample :
  fst (@main tag_stripper [tick_down; tick_ok]) = Crashed TransientError /\
  trace (snd (@main tag_stripper [tick_down; tick_ok])) = [PrintStart; Query] /\
  count_queries (trace (snd (@main tag_stripper [tick_down; tick_ok]))) = 1%nat /\
  count_queries (trace (snd (@main tag_stripper [tick_ok; tick_ok]))) = 2%nat.
Proof. repeat split; vm_compute; reflexivity. Qed.

Section Abort.
Context {soup : BeautifulSoup}.

Lemma for_messages_app t before after nf st :
  for_messages t (before ++ after) nf st
  = match for_messages t before nf st with
    | (Return nf1, st1) => for_messages t after nf1 st1
    | (Raise e, st1) => (Raise e, st1)
    end.
Proof.
  revert nf st. induction before as [|j before IH]; intros nf st; [done|].
  cbn [app for_messages]. unfold mbind.
  destruct (process_message t j nf st) as [[nf1|e] st1]; [apply IH|done].
Qed.

Lemma main_ending ticks e st :
  poll ticks initial = (Raise e, st) -> main ticks = ending e st.
Proof. intros H. unfold main. rewrite H. by destruct e. Qed.

End Abort.

(** Claim C9, as amended.  A provider failure aborts the round at the
    failing call: a query that raises ends the round right after the query,
    and a fetch that raises ends it right after that fetch, the messages
    listed after it left unprocessed.  An exception that leaves a round
    leaves the loop: no later round is run, and [main] ends with that
    exception, whatever its kind - a network error is not retried; only
    [KeyboardInterrupt] is caught, and then the stop message is printed. *)
Theorem C9_provider_error_ends_loop :
  forall (soup : BeautifulSoup),
    (forall t st e,
       list_result t = Raise e ->
       run_cycle t st = (Raise e, State (seen st) (trace st ++ [Query]))) /\
    (forall t st before id after nf1 st1 e,
       list_result t = Return (before ++ id :: after) ->
       for_messages t before false (State (seen st) (trace st ++ [Query]))
       = (Return nf1, st1) ->
       id ∉ seen st1 ->
       get_result t id = Raise e ->
       run_cycle t st = (Raise e, State (seen st1) (trace st1 ++ [Fetch id]))) /\
    (forall ticks t more st e st',
       poll ticks initial = (Return tt, st) ->
       run_cycle t st = (Raise e, st') ->
       main (ticks ++ t :: more) = ending e st').
Proof.
  intros soup. split; [|split].
  - intros t st e Hl. unfold run_cycle, mbind, log, lift. by rewrite Hl.
  - intros t st before id after nf1 st1 e Hl Hb Hn Hg.
    unfold run_cycle, mbind, log, lift. rewrite Hl.
    rewrite for_messages_app, Hb. cbn [for_messages]. unfold mbind.
    by rewrite (process_fetch_raises t id nf1 st1 e Hn Hg).
  - intros ticks t more st e st' Hp Hr. apply main_ending.
    rewrite poll_app, Hp. cbn [poll]. unfold mbind. by rewrite Hr.
Qed.

Lemma C9_witness :
  @run_cycle tag_stripper tick_down initial
  = (Raise TransientError,
     State (seen initial) (trace initial ++ [Query])) /\
  @main tag_stripper ([tick_ok] ++ tick_down :: [tick_ok])
  = ending TransientError
      (snd (@run_cycle tag_stripper tick_down
              (snd (@poll tag_stripper [tick_ok] initial)))) /\
  @main tag_stripper ([tick_ok] ++ tick_interrupted :: [tick_ok])
  = ending KeyboardInterrupt
      (snd (@run_cycle tag_stripper tick_interrupted
              (snd (@poll tag_stripper [tick_ok] initial)))).
Proof.
  split; [|split].
  - apply (proj1 (C9_provider_error_ends_loop tag_stripper)
             tick_down initial TransientError).
    reflexivity.
  - apply (proj2 (proj2 (C9_provider_error_ends_loop tag_stripper))
             [tick_ok] tick_down [tick_ok]
             (snd (@poll tag_stripper [tick_ok] initial))).
    + vm_compute. reflexivity.
    + vm_compute. reflexivity.
  - apply (proj2 (proj2 (C9_provider_error_ends_loop tag_stripper))
             [tick_ok] tick_interrupted [tick_ok]
             (snd (@poll tag_stripper [tick_ok] initial))).
    + vm_compute. reflexivity.
    + vm_compute. reflexivity.
Defined.


(* ================================================================= *)
(** * Part III: further properties of the program *)

(** * More on the extractor *)

(** ** More on the matcher *)

Section MatcherLimits.
Context {A : Type}.
Implicit Types (k : str -> option A) (s : str) (c : cset).

(** A greedy repeat whose continuation accepts everywhere takes the whole
    run. *)
Lemma star_greedy_whole_run c s (f : str -> A) :
  exists s1 s2, s = s1 ++ s2 /\ Forall (fun x => in_cset c x = true) s1 /\
    match s2 with x :: _ => in_cset c x = false | [] => True end /\
    star_greedy c s (fun s' => Some (f s')) = Some (f s2).
Proof.
  induction s as [|x s (s1 & s2 & E & H1 & H2 & H)].
  - by exists [], [].
  - cbn [star_greedy]. destruct (in_cset c x) eqn:Hx.
    + exists (x :: s1), s2. rewrite H, E. by repeat split; [constructor|].
    + exists [], (x :: s). by repeat split.
Qed.

(** A lazy repeat stops at the first place where the continuation accepts:
    it accepts nowhere before. *)
Lemma star_lazy_Some_first c s k a :
  star_lazy c s k = Some a ->
  exists s1 s2, s = s1 ++ s2 /\ k s2 = Some a /\
    forall i, (i < length s1)%nat -> k (drop i s1 ++ s2) = None.
Proof.
  induction s as [|x s IH]; cbn [star_lazy]; intros H.
  - destruct (k []) eqn:E; [|done]. injection H as <-. exists [], [].
    split; [done|]. split; [done|]. intros i Hi. cbn [length] in Hi. lia.
  - destruct (k (x :: s)) eqn:E.
    + injection H as <-. exists [], (x :: s).
      split; [done|]. split; [done|]. intros i Hi. cbn [length] in Hi. lia.
    + destruct (in_cset c x); [|done].
      destruct (IH H) as (s1 & s2 & -> & Hk & Hno).
      exists (x :: s1), s2. split; [done|]. split; [done|].
      intros [|i] Hi; [exact E|]. apply Hno. cbn [length] in Hi. lia.
Qed.
End MatcherLimits.

Lemma any_suffix_all_false P s :
  (forall i, (i <= length s)%nat -> P (drop i s) = false) ->
  any_suffix P s = false.
Proof.
  induction s as [|x s IH]; intros H; cbn [any_suffix].
  - pose proof (H 0%nat ltac:(done)) as H0. cbn [drop] in H0. by rewrite H0.
  - pose proof (H 0%nat ltac:(cbn [length]; lia)) as H0. cbn [drop] in H0.
    rewrite H0. cbn [orb]. apply IH.
    intros i Hi. apply (H (S i)). cbn [length]. lia.
Qed.

Lemma any_suffix_app P a s : P s = true -> any_suffix P (a ++ s) = true.
Proof.
  intros H. induction a as [|x a IH]; cbn [app].
  - destruct s; cbn [any_suffix]; by rewrite H.
  - cbn [any_suffix]. rewrite IH. by rewrite orb_true_r.
Qed.

(** The tail of the pattern stops at the first reference token and takes
    its whole run of digits. *)
Lemma ref_tail_Some_first s g a :
  rmatch ref_tail s g accept = Some a ->
  exists mid ref post,
    s = mid ++ ref_phrase ++ ref ++ post /\ ref <> [] /\ digits ref /\
    a = (2%nat, ref) :: g /\
    has_ref_token mid = false /\ digit_ahead post = false.
Proof.
  unfold ref_tail, accept. cbn [rmatch]. intros H.
  apply star_lazy_Some_first in H as (mid & s1 & E1 & H & Hno).
  apply match_lit_Some in H as (s2 & E2 & H).
  destruct s2 as [|d s2]; [done|]. cbn [plus_greedy] in H.
  destruct (in_cset Digit d) eqn:Hd; [|done].
  destruct (star_greedy_whole_run Digit s2
              (fun s' => (2%nat, take (length (d :: s2) - length s') (d :: s2))
                         :: g))
    as (r & post & E3 & Hr & Hpost & Hrun).
  pose proof (eq_trans (eq_sym H) Hrun) as Ha. injection Ha as ->. subst.
  exists mid, (d :: r), post.
  split; [done|]. split; [done|]. split; [by constructor|].
  split.
  { do 2 f_equal. exact (take_consumed (d :: r) post). }
  split.
  - apply any_suffix_all_false. intros i Hi.
    destruct (decide (i < length mid)%nat) as [Hlt|Hge].
    + specialize (Hno i Hlt).
      destruct (ref_token_at (drop i mid)) eqn:Et; [|done]. exfalso.
      unfold ref_token_at in Et. apply andb_true_iff in Et as [Es Ea].
      apply starts_with_true in Es as [r' Er']. rewrite Er' in Ea, Hno.
      rewrite drop_app_length in Ea. destruct r' as [|d' r']; [done|].
      cbn [digit_ahead] in Ea.
      rewrite <- app_assoc, match_lit_app in Hno. cbn [app plus_greedy] in Hno.
      change (in_cset Digit d') with (is_decimal d') in Hno. rewrite Ea in Hno.
      destruct (star_greedy_whole_run Digit
                  (r' ++ ref_phrase ++ d :: r ++ post)
                  (fun s' => (2%nat,
                     take (length (d' :: r' ++ ref_phrase ++ d :: r ++ post)
                           - length s')
                          (d' :: r' ++ ref_phrase ++ d :: r ++ post)) :: g))
        as (? & ? & _ & _ & _ & Hrun').
      pose proof (eq_trans (eq_sym Hno) Hrun') as Habs. discriminate.
    + rewrite drop_ge by lia. done.
  - destruct post as [|x post]; [done|]. exact Hpost.
Qed.

(** What an anchored match of the whole pattern fixes. *)
Lemma txn_match_Some_first s g :
  re_match txn_pattern s = Some g ->
  exists ds dd mid ref post,
    s = marker ++ ds ++ dot ++ dd ++ credited ++ mid ++ ref_phrase ++ ref ++ post /\
    ds <> [] /\ digits ds /\ length dd = 2%nat /\ digits dd /\
    ref <> [] /\ digits ref /\
    g = [(2%nat, ref); (1%nat, ds ++ dot ++ dd)] /\
    has_ref_token mid = false /\ digit_ahead post = false.
Proof.
  unfold re_match, txn_pattern. cbn [rmatch]. intros H.
  apply match_lit_Some in H as (s1 & E1 & H).
  apply plus_greedy_Some in H as (ds & s2 & E2 & Hne & Hds & H).
  apply match_lit_Some in H as (s3 & E3 & H).
  apply times_Some in H as (dd & s4 & E4 & Hlen & Hdd & H).
  apply match_lit_Some in H as (s5 & E5 & H).
  apply ref_tail_Some_first in H
    as (mid & ref & post & E6 & Hrne & Href & Ea & Hmid & Hpost).
  subst. exists ds, dd, mid, ref, post.
  split; [done|]. do 6 (split; [done|]). split; [|done].
  rewrite (app_assoc dot dd), (app_assoc ds (dot ++ dd)), take_consumed.
  done.
Qed.

(** ** The number an amount writes *)

Lemma digits_value_acc s acc :
  digits s ->
  digits_value acc s = Some (acc * 10 ^ N.of_nat (length s) + number s).
Proof.
  intros H. revert acc. induction H as [|c s Hc _ IH]; intros acc.
  - cbn [digits_value length]. f_equal. unfold number. cbn [digits_value from_option id].
    change (10 ^ N.of_nat 0) with 1. lia.
  - unfold number. cbn [digits_value]. unfold is_decimal in Hc.
    destruct (decimal_value c) as [d|]; [|done].
    rewrite !IH. cbn [from_option id]. f_equal.
    rewrite length_cons, Nat2N.inj_succ, N.pow_succ_r'. lia.
Qed.

Lemma number_app a b :
  digits a -> digits b ->
  number (a ++ b) = number a * 10 ^ N.of_nat (length b) + number b.
Proof.
  intros Ha Hb. revert b Hb.
  assert (forall acc b, digits b ->
            digits_value acc (a ++ b)
            = Some ((acc * 10 ^ N.of_nat (length a) + number a)
                    * 10 ^ N.of_nat (length b) + number b)) as H.
  { induction Ha as [|c a Hc Ha' IH]; intros acc b Hb.
    - cbn [app length]. rewrite (digits_value_acc b acc Hb).
      unfold number at 2. cbn [digits_value from_option id].
      change (10 ^ N.of_nat 0) with 1. f_equal. lia.
    - cbn [app digits_value]. unfold is_decimal in Hc.
      unfold number at 1. cbn [digits_value].
      destruct (decimal_value c) as [d|] eqn:Ed; [|done].
      rewrite (IH _ b Hb).
      rewrite (digits_value_acc a _ Ha'). cbn [from_option id]. f_equal.
      rewrite length_cons, Nat2N.inj_succ, N.pow_succ_r'. lia. }
  intros b Hb. unfold number at 1. rewrite (H 0 b Hb). cbn [from_option id]. lia.
Qed.

Lemma amount_value ds dd :
  digits ds -> digits dd -> length dd = 2%nat ->
  number (ds ++ dd) = 100 * number ds + number dd.
Proof.
  intros Hds Hdd Hlen. rewrite number_app, Hlen by done.
  change (10 ^ N.of_nat 2) with 100. lia.
Qed.


(** ** The handler of the extractor *)

(** Extra X1.  After a match, group 1 is a run of digits, a dot and two
    digits, which [float] accepts, and group 2 took part in the match: the
    body of the [try] block returns on every text, so the handler is never
    entered and "Parsing error" is never printed. *)
Theorem X1_extract_handler_never_runs :
  forall text, exists r,
    extract_try py_float text = Return r /\
    extract_transaction_info text = Return r.
Proof.
  intros text. destruct (extract_try_returns text) as [r Hr]. exists r.
  split; [exact Hr|]. unfold extract_transaction_info, extract_with.
  by rewrite Hr.
Qed.

(** ** The record, exactly *)

(** Extra X2.  The extractor returns the record with amount [a] and
    reference [u] exactly when the text reads: some text, "Rs.", digits,
    ".", two digits, " is successfully credited", some text, "reference
    number is ", the digits [u], some text - where no match of the pattern
    starts earlier in the text, the text between the two phrases holds no
    reference phrase followed by a digit, and no digit follows [u]; [a] is
    then the whole part times 100 plus the two decimals, over 100. *)
Theorem X2_extract_exact :
  forall text a u,
    extract_transaction_info text = Return (Some (Txn a u)) <->
    exists pre ds dd mid post,
      text = txn_text pre ds dd mid u post /\
      ds <> [] /\ digits ds /\ length dd = 2%nat /\ digits dd /\
      u <> [] /\ digits u /\
      a = Dec (100 * number ds + number dd) 2 /\
      no_match_before (length pre) text /\
      has_ref_token mid = false /\ digit_ahead post = false.
Proof.
  intros text a u. split.
  - intros H. destruct (re_search txn_pattern text) as [m|] eqn:E.
    2:{ by rewrite (extract_no_match _ E) in H. }
    pose proof E as E'.
    apply re_search_Some in E as (i & Hi & Hm & Hlt).
    apply txn_match_Some_first in Hm
      as (ds & dd & mid & ref & post & Et & Hne & Hds & Hlen & Hdd
          & Hrne & Href & -> & Hmid & Hpost).
    rewrite (extract_match _ _ _ _ E' Hne Hds Hdd) in H.
    injection H as <- <-.
    exists (take i text), ds, dd, mid, post.
    split. { unfold txn_text. by rewrite <- Et, take_drop. }
    do 6 (split; [done|]).
    split. { by rewrite Hlen, amount_value. }
    split; [|done].
    intros j Hj. apply Hlt. rewrite length_take in Hj. lia.
  - intros (pre & ds & dd & mid & post & -> & Hne & Hds & Hlen & Hdd
            & Hrne & Href & -> & Hno & Hmid & Hpost).
    rewrite <- amount_value, <- Hlen by done.
    apply extract_match; try done.
    unfold txn_text. apply re_search_first.
    + intros i Hi. specialize (Hno i Hi). unfold txn_text in Hno.
      by rewrite drop_app_le in Hno by lia.
    + apply txn_match_head; try done. by apply ref_tail_first.
Qed.

Lemma X2_witness :
  exists pre ds dd mid post,
    example_text = txn_text pre ds dd mid (codes "123456789012") post /\
    ds <> [] /\ digits ds /\ length dd = 2%nat /\ digits dd /\
    codes "123456789012" <> [] /\ digits (codes "123456789012") /\
    Dec 123456 2 = Dec (100 * number ds + number dd) 2 /\
    no_match_before (length pre) example_text /\
    has_ref_token mid = false /\ digit_ahead post = false.
Proof.
  apply (proj1 (X2_extract_exact example_text (Dec 123456 2)
                  (codes "123456789012"))).
  vm_compute. reflexivity.
Defined.

(** ** Texts that cannot match *)

(** Extra X3.  A text that lacks the currency marker, or the words " is
    successfully credited", or a reference phrase followed by a digit, gives
    [None]. *)
Theorem X3_extract_needs_all_phrases :
  forall text,
    has_marker text = false \/ has_credited text = false \/
    has_ref_token text = false ->
    extract_transaction_info text = Return None.
Proof.
  intros text H. destruct (extract_returns text) as [[t|] Hr]; [|done].
  exfalso.
  destruct (extract_Some _ _ Hr)
    as (pre & ds & dd & mid & post & -> & _ & _ & _ & _ & Hne & Hd & _).
  destruct H as [H|[H|H]].
  - unfold has_marker in H. rewrite any_suffix_app in H; [done|].
    apply starts_with_true. by eexists.
  - unfold has_credited in H.
    rewrite 4!app_assoc in H. rewrite any_suffix_app in H; [done|].
    apply starts_with_true. by eexists.
  - unfold has_ref_token in H.
    rewrite 6!app_assoc in H. rewrite any_suffix_app in H; [done|].
    unfold ref_token_at. apply andb_true_iff. split.
    + apply starts_with_true. by eexists.
    + rewrite drop_app_length. destruct (utr t) as [|c u]; [done|].
      cbn [app digit_ahead]. by apply Forall_cons in Hd as [Hc _].
Qed.

Lemma X3_witness :
  extract_transaction_info no_ref_text = Return None.
Proof.
  apply (X3_extract_needs_all_phrases no_ref_text).
  right. right. vm_compute. reflexivity.
Defined.


(** * More on the body decoder *)

(** ** [strip] *)

Lemma lstrip_suffix s : exists p, s = p ++ lstrip s.
Proof.
  induction s as [|c s [p IH]]; [by exists []|]. cbn [lstrip].
  destruct (is_space c).
  - exists (c :: p). cbn [app]. by rewrite <- IH.
  - by exists [].
Qed.

Lemma lstrip_not_blank s : starts_blank (lstrip s) = false.
Proof.
  induction s as [|c s IH]; [done|]. cbn [lstrip].
  destruct (is_space c) eqn:E; [exact IH|]. cbn [starts_blank]. exact E.
Qed.

Lemma rstrip_prefix s : exists q, s = rstrip s ++ q.
Proof.
  unfold rstrip. destruct (lstrip_suffix (rev s)) as [p E]. exists (rev p).
  rewrite <- rev_app_distr, <- E. by rewrite rev_involutive.
Qed.

Lemma strip_not_blank s :
  starts_blank (strip s) = false /\ ends_blank (strip s) = false.
Proof.
  unfold strip. split.
  - destruct (rstrip_prefix (lstrip s)) as [q E].
    pose proof (lstrip_not_blank s) as H. rewrite E in H.
    by destruct (rstrip (lstrip s)).
  - unfold ends_blank, rstrip. rewrite rev_involutive.
    apply lstrip_not_blank.
Qed.

Section DecoderMore.
Context {soup : BeautifulSoup}.

Lemma render_not_blank m c t :
  render m c = Some t -> starts_blank t = false /\ ends_blank t = false.
Proof.
  unfold render. destruct (mime_is m text_plain).
  - intros [= <-]. apply strip_not_blank.
  - destruct (mime_is m text_html); [|done].
    intros [= <-]. apply strip_not_blank.
Qed.

Lemma parts_loop_not_blank ps t :
  parts_loop ps = Return (Some t) ->
  starts_blank t = false /\ ends_blank t = false.
Proof.
  induction ps as [|p ps IH]; [done|]. cbn [parts_loop].
  destruct (body_data p) as [[|c data]|]; [exact IH| |exact IH].
  destruct (decode_data (c :: data)) as [content|e]; [|done]. cbn [bind].
  destruct (render (mimeType p) content) as [text|] eqn:E; [|exact IH].
  intros [= <-]. by apply (render_not_blank _ _ _ E).
Qed.

(** The loop, read as a search for the part that ends it. *)
Lemma parts_loop_ends ps :
  parts_loop ps =
    match find ends_loop ps with
    | Some p => content <- decoded p ;; Return (render (mimeType p) content)
    | None => Return None
    end.
Proof.
  induction ps as [|p ps IH]; [done|]. cbn [parts_loop find].
  destruct (body_data p) as [[|c data]|] eqn:Ed.
  - assert (ends_loop p = false) as ->; [|exact IH].
    unfold ends_loop, is_text_part, has_data. by rewrite Ed.
  - destruct (decode_data (c :: data)) as [content|e] eqn:Ec; cbn [bind].
    + destruct (render (mimeType p) content) as [text|] eqn:Er.
      * assert (ends_loop p = true) as ->.
        { unfold ends_loop, is_text_part, has_data. rewrite Ed. cbn [andb].
          unfold render in Er.
          destruct (mime_is (mimeType p) text_plain); [done|].
          by destruct (mime_is (mimeType p) text_html). }
        unfold decoded. rewrite Ed, Ec. cbn [bind]. by rewrite Er.
      * assert (ends_loop p = false) as ->; [|exact IH].
        unfold ends_loop, is_text_part, has_data, decodes. rewrite Ed, Ec.
        unfold render in Er.
        destruct (mime_is (mimeType p) text_plain); [done|].
        by destruct (mime_is (mimeType p) text_html).
    + assert (ends_loop p = true) as ->.
      { unfold ends_loop, is_text_part, has_data, decodes. rewrite Ed, Ec.
        cbn [andb negb]. by rewrite orb_true_r. }
      unfold decoded. by rewrite Ed, Ec.
  - assert (ends_loop p = false) as ->; [|exact IH].
    unfold ends_loop, is_text_part, has_data. by rewrite Ed.
Qed.

Lemma ends_loop_text p c :
  ends_loop p = true -> decoded p = Return c ->
  render (mimeType p) c
  = Some (if mime_is (mimeType p) text_plain then strip c
          else strip (get_text c)).
Proof.
  unfold ends_loop, is_text_part, has_data, decodes, decoded, render.
  destruct (body_data p) as [[|x data]|]; cbn [andb orb]; try done.
  intros H Hc. rewrite Hc in H. cbn [negb] in H. rewrite orb_false_r in H.
  destruct (mime_is (mimeType p) text_plain); [done|]. cbn [orb] in H.
  by rewrite H.
Qed.

End DecoderMore.

(** ** What a payload's text looks like *)

(** Extra X4.  Whatever the decoder returns neither begins nor ends with a
    character that [strip] removes: every [return] of the decoder strips its
    text, or returns the empty string. *)
Theorem X4_decoder_text_is_stripped :
  forall (soup : BeautifulSoup) (p : payload) (s : str),
    get_email_body p = Return s ->
    starts_blank s = false /\ ends_blank s = false.
Proof.
  intros soup p s. unfold get_email_body. destruct (parts p) as [ps|].
  - destruct (parts_loop ps) as [[t|]|e] eqn:E; cbn [bind];
      [|by intros [= <-]|done].
    intros [= <-]. by apply (parts_loop_not_blank ps).
  - destruct (body_data (self p)) as [[|c data]|];
      [by intros [= <-]| |by intros [= <-]].
    destruct (decode_data (c :: data)) as [content|e]; [|done]. cbn [bind].
    destruct (render (mimeType (self p)) content) as [text|] eqn:E.
    + intros [= <-]. by apply (render_not_blank _ _ _ E).
    + by intros [= <-].
Qed.

Lemma X4_witness :
  starts_blank (codes "Rs.12.50 is successfully credited." ++ [10] ++
                codes "The reference number is 42") = false /\
  ends_blank (codes "Rs.12.50 is successfully credited." ++ [10] ++
              codes "The reference number is 42") = false.
Proof.
  apply (X4_decoder_text_is_stripped tag_stripper credit_payload).
  vm_compute. reflexivity.
Defined.

(** ** The two branches of the decoder *)

(** Extra X5.  A payload without ['parts'] is decoded exactly as a payload
    whose ['parts'] hold that one part: the two branches of the decoder
    agree, in what they return and in what they raise. *)
Theorem X5_single_part_as_one_part_list :
  forall (soup : BeautifulSoup) (own other : part),
    get_email_body (Payload own None)
    = get_email_body (Payload other (Some [own])).
Proof.
  intros soup own other. unfold get_email_body. cbn [parts self parts_loop].
  destruct (body_data own) as [[|c data]|]; try done.
  destruct (decode_data (c :: data)) as [content|e]; [|done]. cbn [bind].
  by destruct (render (mimeType own) content).
Qed.

(** ** The part that decides *)

(** Extra X6.  On a multi-part payload the result is decided by the first
    part, in list order, that has body data and either is plain text or HTML
    or fails to decode: the decoder returns the stripped text of that part,
    or raises the exception of its decoding; with no such part it returns
    the empty string.  The payload's own type and data are not read. *)
Theorem X6_decoder_deciding_part :
  forall (soup : BeautifulSoup) (own : part) (ps : list part),
    get_email_body (Payload own (Some ps)) =
      match find ends_loop ps with
      | Some p =>
          content <- decoded p ;;
          Return (if mime_is (mimeType p) text_plain then strip content
                  else strip (get_text content))
      | None => Return []
      end.
Proof.
  intros soup own ps. unfold get_email_body. cbn [parts].
  rewrite parts_loop_ends.
  destruct (find ends_loop ps) as [p|] eqn:Ef; [|done].
  apply find_some in Ef as [_ He].
  destruct (decoded p) as [c|e] eqn:Ec; [|done]. cbn [bind].
  by rewrite (ends_loop_text p c He Ec).
Qed.

(** Extra X7.  Body data are decoded before the type of the part is looked
    at, and parts after the one returned are not decoded at all.  So a part
    of any type whose data fail to decode makes the decoder raise when only
    decodable parts that are neither plain text nor HTML come before it,
    even if a text part follows; and a text part that decodes is returned
    whatever comes after it. *)
Theorem X7_decode_errors_by_position :
  forall (soup : BeautifulSoup) (own : part) (before : list part) (p : part)
         (after : list part),
    forallb (fun q => negb (ends_loop q)) before = true ->
    (forall data e,
       body_data p = Some data -> data <> [] -> decode_data data = Raise e ->
       get_email_body (Payload own (Some (before ++ p :: after))) = Raise e) /\
    (forall data content,
       body_data p = Some data -> decode_data data = Return content ->
       is_text_part p = true ->
       get_email_body (Payload own (Some (before ++ p :: after)))
       = Return (if mime_is (mimeType p) text_plain then strip content
                 else strip (get_text content))).
Proof.
  intros soup own before p after Hb. split.
  - intros data e Hd Hne He. unfold get_email_body. cbn [parts].
    rewrite parts_loop_ends.
    rewrite (find_app_first ends_loop before p after Hb).
    + unfold decoded. by rewrite Hd, He.
    + unfold ends_loop, has_data, decodes. rewrite Hd, He.
      destruct data; [done|]. by rewrite orb_true_r.
  - intros data content Hd Hc Ht.
    assert (ends_loop p = true) as He by (unfold ends_loop; by rewrite Ht).
    assert (decoded p = Return content) as Ec
      by (unfold decoded; by rewrite Hd).
    unfold get_email_body. cbn [parts]. rewrite parts_loop_ends.
    rewrite (find_app_first ends_loop before p after Hb He), Ec. cbn [bind].
    by rewrite (ends_loop_text p content He Ec).
Qed.

Lemma X7_witness :
  @get_email_body tag_stripper
    (Payload multipart (Some ([good_attachment] ++ bad_attachment :: [plain_part])))
  = Raise BinasciiError /\
  @get_email_body tag_stripper
    (Payload multipart (Some ([good_attachment] ++ plain_part :: [bad_attachment])))
  = Return (if mime_is (mimeType plain_part) text_plain
            then strip (codes "plain body")
            else strip (@get_text tag_stripper (codes "plain body"))).
Proof.
  assert (forallb (fun q => negb (ends_loop q)) [good_attachment] = true) as Hb
    by (vm_compute; reflexivity).
  split.
  - apply (proj1 (X7_decode_errors_by_position tag_stripper multipart
                    [good_attachment] bad_attachment [plain_part] Hb)
             (codes "iVBOR") BinasciiError).
    + reflexivity.
    + discriminate.
    + vm_compute. reflexivity.
  - apply (proj2 (X7_decode_errors_by_position tag_stripper multipart
                    [good_attachment] plain_part [bad_attachment] Hb)
             (codes "cGxhaW4gYm9keQ==") (codes "plain body")).
    + reflexivity.
    + vm_compute. reflexivity.
    + vm_compute. reflexivity.
Defined.


(** ** The exceptions of the decoder *)

Lemma utf8_encode_raises s e :
  utf8_encode s = Raise e -> e = UnicodeEncodeError.
Proof.
  induction s as [|c s IH]; [done|]. cbn [utf8_encode].
  destruct (utf8_encode_char c) as [b|e'] eqn:Ec; cbn [bind].
  - destruct (utf8_encode s) as [bs|e'']; cbn [bind]; [done|].
    intros [= <-]. by apply IH.
  - intros [= <-]. unfold utf8_encode_char in Ec.
    repeat case_match; congruence.
Qed.

Lemma a2b_loop_raises s quad_pos leftchar pads out e :
  a2b_loop s quad_pos leftchar pads out = Raise e -> e = BinasciiError.
Proof.
  revert quad_pos leftchar pads out.
  induction s as [|c s IH]; intros quad_pos leftchar pads out;
    cbn [a2b_loop].
  - case_match; congruence.
  - repeat case_match; try done; apply IH.
Qed.

Lemma decode_data_raises data e :
  decode_data data = Raise e -> e = UnicodeEncodeError \/ e = BinasciiError.
Proof.
  unfold decode_data. destruct (utf8_encode data) as [b|e'] eqn:Eb; cbn [bind].
  - unfold urlsafe_b64decode, a2b_base64.
    destruct (a2b_loop _ 0 0 0 []) as [d|e''] eqn:Ed; cbn [bind]; [done|].
    intros [= <-]. right. by apply (a2b_loop_raises _ _ _ _ _ _ Ed).
  - intros [= <-]. left. by apply (utf8_encode_raises _ _ Eb).
Qed.

Lemma parts_loop_raises `{BeautifulSoup} ps e :
  parts_loop ps = Raise e -> e = UnicodeEncodeError \/ e = BinasciiError.
Proof.
  induction ps as [|p ps IH]; [done|]. cbn [parts_loop].
  destruct (body_data p) as [[|c data]|]; [exact IH| |exact IH].
  destruct (decode_data (c :: data)) as [content|e'] eqn:Ed; cbn [bind].
  - by destruct (render (mimeType p) content).
  - intros [= <-]. by apply (decode_data_raises _ _ Ed).
Qed.


(** ** UTF-8: what is encoded is decoded *)

Lemma below_check (P : N -> bool) (n : nat) :
  forallb P (map N.of_nat (seq 0 n)) = true ->
  forall x, x < N.of_nat n -> P x = true.
Proof.
  intros H x Hx. apply (proj1 (forallb_forall _ _) H).
  apply in_map_iff. exists (N.to_nat x). split; [apply N2Nat.id|].
  apply in_seq. lia.
Qed.

Lemma lead2 q : q < 32 ->
  N.lor 0xC0 q = 0xC0 + q /\ N.land (0xC0 + q) 0x1F = q.
Proof.
  intros H.
  pose proof (below_check
    (fun q => (N.lor 0xC0 q =? 0xC0 + q) && (N.land (0xC0 + q) 0x1F =? q))
    32 ltac:(vm_compute; reflexivity) q H) as Hq.
  apply andb_true_iff in Hq as [H1 H2].
  by apply N.eqb_eq in H1, H2.
Qed.

Lemma lead3 q : q < 16 ->
  N.lor 0xE0 q = 0xE0 + q /\ N.land (0xE0 + q) 0x0F = q.
Proof.
  intros H.
  pose proof (below_check
    (fun q => (N.lor 0xE0 q =? 0xE0 + q) && (N.land (0xE0 + q) 0x0F =? q))
    16 ltac:(vm_compute; reflexivity) q H) as Hq.
  apply andb_true_iff in Hq as [H1 H2].
  by apply N.eqb_eq in H1, H2.
Qed.

Lemma lead4 q : q < 8 ->
  N.lor 0xF0 q = 0xF0 + q /\ N.land (0xF0 + q) 0x07 = q.
Proof.
  intros H.
  pose proof (below_check
    (fun q => (N.lor 0xF0 q =? 0xF0 + q) && (N.land (0xF0 + q) 0x07 =? q))
    8 ltac:(vm_compute; reflexivity) q H) as Hq.
  apply andb_true_iff in Hq as [H1 H2].
  by apply N.eqb_eq in H1, H2.
Qed.

Lemma trail r : r < 64 ->
  N.lor 0x80 r = 0x80 + r /\ low6 (0x80 + r) = r /\
  is_continuation (0x80 + r) = true.
Proof.
  intros H.
  pose proof (below_check
    (fun r => (N.lor 0x80 r =? 0x80 + r) && (low6 (0x80 + r) =? r)
              && is_continuation (0x80 + r))
    64 ltac:(vm_compute; reflexivity) r H) as Hr.
  apply andb_true_iff in Hr as [Hr H3]. apply andb_true_iff in Hr as [H1 H2].
  by apply N.eqb_eq in H1, H2.
Qed.

Lemma low_bits c : N.land c 0x3F = c mod 64.
Proof. exact (N.land_ones c 6). Qed.

Lemma high_bits c : N.shiftr c 6 = c / 64.
Proof. exact (N.shiftr_div_pow2 c 6). Qed.

Lemma high_bits12 c : N.shiftr c 12 = c / 64 / 64.
Proof. rewrite N.shiftr_div_pow2, N.Div0.div_div. done. Qed.

Lemma high_bits18 c : N.shiftr c 18 = c / 64 / 64 / 64.
Proof. rewrite N.shiftr_div_pow2, !N.Div0.div_div. done. Qed.

(** The bytes that encode one code point decode to that code point. *)
Lemma utf8_decode_char c b rest :
  is_code_point c -> utf8_encode_char c = Return b ->
  utf8_decode_ignore (b ++ rest) = c :: utf8_decode_ignore rest.
Proof.
  unfold is_code_point, utf8_encode_char. intros Hc.
  pose proof (N.div_mod' c 64) as D1.
  pose proof (N.mod_lt c 64 ltac:(done)) as M1.
  pose proof (N.div_mod' (c / 64) 64) as D2.
  pose proof (N.mod_lt (c / 64) 64 ltac:(done)) as M2.
  pose proof (N.div_mod' (c / 64 / 64) 64) as D3.
  pose proof (N.mod_lt (c / 64 / 64) 64 ltac:(done)) as M3.
  rewrite !low_bits, !high_bits, !high_bits12, !high_bits18.
  set (r1 := c mod 64) in *. set (q1 := c / 64) in *.
  set (r2 := q1 mod 64) in *. set (q2 := q1 / 64) in *.
  set (r3 := q2 mod 64) in *. set (q3 := q2 / 64) in *.
  destruct (N.ltb_spec c 0x80) as [H1|H1].
  { intros [= <-]. cbn [app utf8_decode_ignore].
    by rewrite (proj2 (N.ltb_lt _ _) H1). }
  destruct (N.ltb_spec c 0x800) as [H2|H2].
  { intros [= <-].
    destruct (lead2 q1 ltac:(lia)) as [-> L2].
    destruct (trail r1 M1) as (-> & T1 & C1).
    cbn [app utf8_decode_ignore].
    rewrite (proj2 (N.ltb_ge (0xC0 + q1) 0x80)) by lia.
    rewrite (proj2 (N.ltb_ge (0xC0 + q1) 0xC2)) by lia.
    rewrite (proj2 (N.ltb_lt (0xC0 + q1) 0xE0)) by lia.
    rewrite C1, L2, T1. f_equal. lia. }
  destruct ((0xD800 <=? c) && (c <=? 0xDFFF)) eqn:Hs; [done|].
  assert (c < 0xD800 \/ 0xDFFF < c) as Hsur.
  { apply andb_false_iff in Hs as [Hs|Hs].
    - left. by apply N.leb_gt.
    - right. by apply N.leb_gt. }
  destruct (N.ltb_spec c 0x10000) as [H3|H3].
  { intros [= <-].
    destruct (lead3 q2 ltac:(lia)) as [-> L3].
    destruct (trail r2 M2) as (-> & T2 & C2).
    destruct (trail r1 M1) as (-> & T1 & C1).
    cbn [app utf8_decode_ignore].
    rewrite (proj2 (N.ltb_ge (0xE0 + q2) 0x80)) by lia.
    rewrite (proj2 (N.ltb_ge (0xE0 + q2) 0xC2)) by lia.
    rewrite (proj2 (N.ltb_ge (0xE0 + q2) 0xE0)) by lia.
    rewrite (proj2 (N.ltb_lt (0xE0 + q2) 0xF0)) by lia.
    rewrite C2, C1, L3, T2, T1. cbn [negb orb].
    assert ((if 0x80 + r2 <? 0xA0 then 0xE0 + q2 =? 0xE0
             else 0xE0 + q2 =? 0xED) = false) as ->.
    { destruct (N.ltb_spec (0x80 + r2) 0xA0); apply N.eqb_neq; lia. }
    f_equal. lia. }
  intros [= <-].
  destruct (lead4 q3 ltac:(lia)) as [-> L4].
  destruct (trail r3 M3) as (-> & T3 & C3).
  destruct (trail r2 M2) as (-> & T2 & C2).
  destruct (trail r1 M1) as (-> & T1 & C1).
  cbn [app utf8_decode_ignore].
  rewrite (proj2 (N.ltb_ge (0xF0 + q3) 0x80)) by lia.
  rewrite (proj2 (N.ltb_ge (0xF0 + q3) 0xC2)) by lia.
  rewrite (proj2 (N.ltb_ge (0xF0 + q3) 0xE0)) by lia.
  rewrite (proj2 (N.ltb_ge (0xF0 + q3) 0xF0)) by lia.
  rewrite (proj2 (N.ltb_lt (0xF0 + q3) 0xF5)) by lia.
  rewrite C3, C2, C1, L4, T3, T2, T1. cbn [negb orb].
  assert ((if 0x80 + r3 <? 0x90 then 0xF0 + q3 =? 0xF0
           else 0xF0 + q3 =? 0xF4) = false) as ->.
  { destruct (N.ltb_spec (0x80 + r3) 0x90); apply N.eqb_neq; lia. }
  f_equal. lia.
Qed.

Lemma utf8_decode_encode s b :
  Forall is_code_point s -> utf8_encode s = Return b ->
  utf8_decode_ignore b = s.
Proof.
  intros Hs. revert b. induction Hs as [|c s Hc _ IH]; intros b.
  - by intros [= <-].
  - cbn [utf8_encode].
    destruct (utf8_encode_char c) as [b1|] eqn:E1; cbn [bind]; [|done].
    destruct (utf8_encode s) as [bs|] eqn:E2; cbn [bind]; [|done].
    intros [= <-]. rewrite (utf8_decode_char c b1 bs Hc E1).
    by rewrite (IH bs).
Qed.


Lemma decode_data_bytes data :
  decode_data data = (d <- decoded_bytes data ;; Return (utf8_decode_ignore d)).
Proof.
  unfold decode_data, decoded_bytes. by destruct (utf8_encode data).
Qed.

(** Extra X8.  The decoder raises nothing but what the decoding of body data
    raises: [UnicodeEncodeError] from [data.encode('UTF-8')] and
    [binascii.Error] from [urlsafe_b64decode]; both derive from [Exception].
    *)
Theorem X8_decoder_raises_only_decoding_errors :
  forall (soup : BeautifulSoup) (p : payload) (e : exn),
    get_email_body p = Raise e ->
    (e = UnicodeEncodeError \/ e = BinasciiError) /\ is_Exception e = true.
Proof.
  intros soup p e H.
  assert (e = UnicodeEncodeError \/ e = BinasciiError) as He.
  { unfold get_email_body in H. destruct (parts p) as [ps|].
    - destruct (parts_loop ps) as [r|e'] eqn:E; cbn [bind] in H; [done|].
      injection H as <-. by apply (parts_loop_raises ps).
    - destruct (body_data (self p)) as [[|c data]|]; try done.
      destruct (decode_data (c :: data)) as [content|e'] eqn:Ed;
        cbn [bind] in H; [done|].
      injection H as <-. by apply (decode_data_raises _ _ Ed). }
  split; [exact He|]. by destruct He as [-> | ->].
Qed.

Lemma X8_witness :
  ((BinasciiError = UnicodeEncodeError \/ BinasciiError = BinasciiError) /\
   is_Exception BinasciiError = true) /\
  ((UnicodeEncodeError = UnicodeEncodeError \/
    UnicodeEncodeError = BinasciiError) /\
   is_Exception UnicodeEncodeError = true).
Proof.
  split.
  - apply (X8_decoder_raises_only_decoding_errors tag_stripper bad_payload).
    vm_compute. reflexivity.
  - apply (X8_decoder_raises_only_decoding_errors tag_stripper surrogate_payload).
    vm_compute. reflexivity.
Defined.

(** Extra X9.  When the body data of a part stand for the UTF-8 encoding of
    a text, [errors='ignore'] drops nothing: the decoded content is that
    text, and a single-part payload of type text/plain gives the text
    stripped, one of type text/html the stripped text of its markup. *)
Theorem X9_utf8_text_survives_decoding :
  forall (soup : BeautifulSoup) (p : part) (data : str) (b : bytes)
         (text : str),
    body_data p = Some data -> data <> [] ->
    decoded_bytes data = Return b ->
    utf8_encode text = Return b -> Forall is_code_point text ->
    decode_data data = Return text /\
    (mime_is (mimeType p) text_plain = true ->
     get_email_body (Payload p None) = Return (strip text)) /\
    (mime_is (mimeType p) text_html = true ->
     get_email_body (Payload p None) = Return (strip (get_text text))).
Proof.
  intros soup p data b text Hd Hne Hb Ht Hcp.
  assert (decode_data data = Return text) as Hdec.
  { rewrite decode_data_bytes, Hb. cbn [bind].
    by rewrite (utf8_decode_encode text b Hcp Ht). }
  split; [exact Hdec|].
  unfold get_email_body. cbn [parts self]. rewrite Hd.
  destruct data as [|c data]; [done|]. rewrite Hdec. cbn [bind].
  unfold render. split; intros Hm.
  - by rewrite Hm.
  - by rewrite (html_not_plain _ Hm), Hm.
Qed.

Lemma X9_witness :
  decode_data (codes "ICDigrk1MDAgcmXDp3Ug8J-YgAo=") = Return receipt_text /\
  (mime_is (mimeType receipt_part) text_plain = true ->
   @get_email_body tag_stripper (Payload receipt_part None)
   = Return (strip receipt_text)) /\
  (mime_is (mimeType receipt_part) text_html = true ->
   @get_email_body tag_stripper (Payload receipt_part None)
   = Return (strip (@get_text tag_stripper receipt_text))).
Proof.
  assert (decoded_bytes (codes "ICDigrk1MDAgcmXDp3Ug8J-YgAo=")
          = Return [32; 32; 226; 130; 185; 53; 48; 48; 32; 114; 101; 195; 167;
                    117; 32; 240; 159; 152; 128; 10]) as Hb
    by (vm_compute; reflexivity).
  assert (utf8_encode receipt_text
          = Return [32; 32; 226; 130; 185; 53; 48; 48; 32; 114; 101; 195; 167;
                    117; 32; 240; 159; 152; 128; 10]) as Ht
    by (vm_compute; reflexivity).
  apply (X9_utf8_text_survives_decoding tag_stripper receipt_part
           (codes "ICDigrk1MDAgcmXDp3Ug8J-YgAo=") _ receipt_text
           eq_refl ltac:(discriminate) Hb Ht).
  unfold receipt_text, is_code_point. repeat constructor.
Defined.


(** * More on the polling loop *)

Section Shape.
Context {soup : BeautifulSoup}.
Implicit Types (t : tick) (id : msg_id) (st : state) (nf : bool).

Lemma processed_prints id r :
  existsb is_print (processed id r)
  = match r with Some _ => true | None => false end.
Proof. by destruct r. Qed.

Lemma processed_message_events id r :
  Forall (fun e => is_message_event e = true) (processed id r).
Proof. unfold processed. destruct r; repeat constructor. Qed.

(** What one pass of the loop body adds to the trace, and what it makes of
    the flag [new_found]. *)
Lemma process_shape t id nf st r st' :
  process_message t id nf st = (r, st') ->
  exists new,
    trace st' = trace st ++ new /\
    Forall (fun e => is_message_event e = true) new /\
    (forall nf', r = Return nf' -> nf' = nf || existsb is_print new).
Proof.
  intros H.
  destruct (process_cases t id nf st)
    as [[_ E]|[(_ & _ & e & new & E & Hnew)|(_ & _ & E)]];
    rewrite E in H; injection H as <- <-.
  - exists []. rewrite app_nil_r. split; [done|]. split; [constructor|].
    intros nf' [= <-]. by rewrite orb_false_r.
  - exists new. split; [done|]. split; [|done].
    destruct Hnew as [-> | ->]; repeat constructor.
  - exists (processed id (txn_of t id)). split; [done|].
    split; [apply processed_message_events|].
    intros nf' [= <-]. rewrite processed_prints.
    destruct (txn_of t id); [by rewrite orb_true_r|by rewrite orb_false_r].
Qed.

Lemma for_messages_shape t messages nf st r st' :
  for_messages t messages nf st = (r, st') ->
  exists new,
    trace st' = trace st ++ new /\
    Forall (fun e => is_message_event e = true) new /\
    (forall nf', r = Return nf' -> nf' = nf || existsb is_print new).
Proof.
  revert nf st. induction messages as [|id messages IH]; intros nf st H.
  - injection H as <- <-. exists []. rewrite app_nil_r.
    split; [done|]. split; [constructor|].
    intros nf' [= <-]. by rewrite orb_false_r.
  - cbn [for_messages] in H.
    apply mbind_run in H as [(nf1 & st1 & H1 & H2)|(e & H1 & ->)].
    + destruct (process_shape _ _ _ _ _ _ H1) as (new1 & T1 & F1 & B1).
      destruct (IH _ _ H2) as (new2 & T2 & F2 & B2).
      exists (new1 ++ new2). split; [by rewrite T2, T1, app_assoc|].
      split; [by apply Forall_app|].
      intros nf' ->. rewrite (B2 nf' eq_refl), (B1 nf1 eq_refl).
      by rewrite existsb_app, orb_assoc.
    + destruct (process_shape _ _ _ _ _ _ H1) as (new1 & T1 & F1 & _).
      exists new1. by repeat split.
Qed.

End Shape.

(** ** The shape of a round *)

(** Extra X10.  Every round starts with the query.  A round whose query or
    whose loop over the messages raises ends there: after the query it holds
    events about messages only, so no dot is printed and the program does
    not sleep.  A round whose loop runs to its end prints a dot exactly when
    the loop printed no transaction, and then sleeps; its result is that of
    the sleep. *)
Theorem X10_round_dot_iff_no_transaction :
  forall (soup : BeautifulSoup) (t : tick) (st : state) (r : res unit)
         (st' : state),
    run_cycle t st = (r, st') ->
    exists body,
      Forall (fun e => is_message_event e = true) body /\
      ((trace st' = trace st ++ Query :: body /\ exists e, r = Raise e) \/
       (trace st'
        = trace st ++ Query :: body
          ++ (if existsb is_print body then [] else [PrintDot]) ++ [Sleep] /\
        r = sleep_result t)).
Proof.
  intros soup t st r st' H. unfold run_cycle in H.
  apply mbind_run in H as [([] & st1 & H1 & H)|(e & H1 & _)]; [|done].
  injection H1 as <-.
  apply mbind_run in H as [(ms & st2 & H2 & H)|(e & H2 & ->)].
  2:{ injection H2 as _ <-. exists []. split; [constructor|]. left.
      split; [done|by exists e]. }
  injection H2 as _ <-.
  apply mbind_run in H as [(nf & st3 & H3 & H)|(e & H3 & ->)].
  2:{ destruct (for_messages_shape _ _ _ _ _ _ H3) as (body & T & F & _).
      exists body. split; [done|]. left. cbn [trace] in T.
      split; [by rewrite T, <- app_assoc|by exists e]. }
  destruct (for_messages_shape _ _ _ _ _ _ H3) as (body & T & F & B).
  cbn [trace] in T. specialize (B nf eq_refl). cbn [orb] in B.
  exists body. split; [done|]. right. rewrite <- B.
  unfold mbind, log, lift, ret in H. destruct nf.
  - injection H as <- <-. cbn [trace]. rewrite T. cbn [app].
    by rewrite <- !app_assoc.
  - injection H as <- <-. cbn [trace]. rewrite T. cbn [app].
    by rewrite <- !app_assoc.
Qed.

Lemma X10_witness :
  exists body,
    Forall (fun e => is_message_event e = true) body /\
    ((trace (snd (@run_cycle tag_stripper tick_ok initial))
      = trace initial ++ Query :: body /\
      exists e, fst (@run_cycle tag_stripper tick_ok initial) = Raise e) \/
     (trace (snd (@run_cycle tag_stripper tick_ok initial))
      = trace initial ++ Query :: body
        ++ (if existsb is_print body then [] else [PrintDot]) ++ [Sleep] /\
      fst (@run_cycle tag_stripper tick_ok initial) = sleep_result tick_ok)).
Proof.
  apply (X10_round_dot_iff_no_transaction tag_stripper tick_ok initial
           (fst (@run_cycle tag_stripper tick_ok initial))
           (snd (@run_cycle tag_stripper tick_ok initial))).
  vm_compute. reflexivity.
Defined.

(** ** The pace of the queries *)

Lemma pace_app b tr1 tr2 :
  pace b (tr1 ++ tr2)
  = match pace b tr1 with
    | Some b' => pace b' tr2
    | None => None
    end.
Proof.
  revert b. induction tr1 as [|e tr1 IH]; intros b; [done|].
  destruct e; cbn [app pace]; try apply IH. by destruct b.
Qed.

Lemma pace_message_events b new :
  Forall (fun e => is_message_event e = true) new -> pace b new = Some b.
Proof.
  induction 1 as [|e new He _ IH]; [done|]. by destruct e.
Qed.

Lemma count_queries_app tr1 tr2 :
  count_queries (tr1 ++ tr2) = (count_queries tr1 + count_queries tr2)%nat.
Proof.
  induction tr1 as [|e tr1 IH]; [done|].
  destruct e; cbn [app count_queries]; by rewrite ?IH.
Qed.

Lemma count_sleeps_app tr1 tr2 :
  count_sleeps (tr1 ++ tr2) = (count_sleeps tr1 + count_sleeps tr2)%nat.
Proof.
  induction tr1 as [|e tr1 IH]; [done|].
  destruct e; cbn [app count_sleeps]; by rewrite ?IH.
Qed.

Lemma count_message_events new :
  Forall (fun e => is_message_event e = true) new ->
  count_queries new = 0%nat /\ count_sleeps new = 0%nat.
Proof.
  induction 1 as [|e new He _ [IH1 IH2]]; [done|]. by destruct e.
Qed.

Section Pace.
Context {soup : BeautifulSoup}.

Lemma run_cycle_steady t st r st' :
  run_cycle t st = (r, st') -> steady 1 (returned r) st st'.
Proof.
  intros H Hp. unfold run_cycle in H.
  apply mbind_run in H as [([] & st1 & H1 & H)|(e & H1 & _)]; [|done].
  injection H1 as <-.
  assert (pace true (trace st ++ [Query]) = Some false) as Hq.
  { by rewrite pace_app, Hp. }
  assert (count_queries (trace st ++ [Query])
          = (count_queries (trace st) + 1)%nat) as Cq.
  { by rewrite count_queries_app. }
  assert (count_sleeps (trace st ++ [Query]) = count_sleeps (trace st)) as Cs.
  { rewrite count_sleeps_app. cbn [count_sleeps]. lia. }
  apply mbind_run in H as [(ms & st2 & H2 & H)|(e & H2 & ->)].
  2:{ injection H2 as _ <-. cbn [trace returned].
      split; [by exists false|]. split; [lia|done]. }
  injection H2 as _ <-.
  apply mbind_run in H as [(nf & st3 & H3 & H)|(e & H3 & ->)];
    destruct (for_messages_shape _ _ _ _ _ _ H3) as (body & T & F & _);
    cbn [trace] in T;
    destruct (count_message_events body F) as [Bq Bs].
  2:{ cbn [returned]. rewrite T, pace_app, Hq, count_queries_app, Cq, Bq.
      rewrite (pace_message_events _ _ F).
      split; [by exists false|]. split; [lia|done]. }
  assert (exists tail,
            trace st' = trace st3 ++ tail ++ [Sleep] /\
            (tail = [] \/ tail = [PrintDot])) as (tail & T' & Htail).
  { unfold mbind, log, lift, ret in H. destruct nf; injection H as _ <-.
    - exists []. split; [done|by left].
    - exists [PrintDot]. cbn [trace]. split; [by rewrite <- app_assoc|by right]. }
  assert (pace false (tail ++ [Sleep]) = Some true) as Pt
    by (by destruct Htail as [-> | ->]).
  assert (count_queries (tail ++ [Sleep]) = 0%nat) as Tq
    by (by destruct Htail as [-> | ->]).
  assert (count_sleeps (tail ++ [Sleep]) = 1%nat) as Ts
    by (by destruct Htail as [-> | ->]).
  rewrite T', T. split.
  { rewrite (pace_app _ _ (tail ++ [Sleep])), (pace_app _ _ body), Hq.
    rewrite (pace_message_events _ _ F), Pt. by exists true. }
  rewrite (count_queries_app _ (tail ++ [Sleep])), (count_queries_app _ body).
  rewrite (count_sleeps_app _ (tail ++ [Sleep])), (count_sleeps_app _ body).
  rewrite Cq, Cs, Bq, Bs, Tq, Ts. split; [lia|]. intros _. lia.
Qed.

Lemma poll_steady ticks st r st' :
  poll ticks st = (r, st') -> steady (length ticks) (returned r) st st'.
Proof.
  revert st. induction ticks as [|t ticks IH]; intros st H.
  - injection H as <- <-. intros Hp. cbn [length returned].
    split; [by exists true|]. split; [lia|]. intros _. lia.
  - cbn [poll] in H.
    apply mbind_run in H as [([] & st1 & H1 & H2)|(e & H1 & ->)].
    + intros Hp.
      destruct (run_cycle_steady _ _ _ _ H1 Hp) as ((b & P1 & B1) & Q1 & R1).
      specialize (B1 eq_refl). subst b.
      destruct (R1 eq_refl) as [R1q R1s].
      destruct (IH _ H2 P1) as (P2 & Q2 & R2).
      cbn [length]. split; [exact P2|]. split; [lia|].
      intros Hr. destruct (R2 Hr). lia.
    + intros Hp.
      destruct (run_cycle_steady _ _ _ _ H1 Hp) as (P1 & Q1 & _).
      cbn [length returned]. split; [|split; [lia|done]].
      destruct P1 as (b & P1 & _). by exists b.
Qed.

End Pace.

(** Extra X11.  The provider is never queried twice without a sleep in
    between: in the trace of every run, a query is the first one or comes
    after a sleep that follows the query before it.  Each round sends one
    query, so after any number of rounds the program has sent at most that
    many queries; and when the loop is still running it has sent exactly one
    query and slept exactly once per round. *)
Theorem X11_queries_are_paced :
  forall (soup : BeautifulSoup) (ticks : list tick),
    paced (trace (snd (main ticks))) = true /\
    (count_queries (trace (snd (main ticks))) <= length ticks)%nat /\
    (fst (main ticks) = Polling ->
     count_queries (trace (snd (main ticks))) = length ticks /\
     count_sleeps (trace (snd (main ticks))) = length ticks).
Proof.
  intros soup ticks. unfold main, paced.
  destruct (poll ticks initial) as [r st] eqn:E.
  destruct (poll_steady _ _ _ _ E eq_refl) as ((b & P & B) & Q & R).
  cbn [initial trace count_queries count_sleeps] in Q, R.
  destruct r as [[]|e].
  - cbn [fst snd]. rewrite P. split; [done|]. split; [lia|].
    intros _. destruct (R eq_refl). lia.
  - assert (pace true (trace st ++ [PrintStopped]) = Some b) as P'.
    { by rewrite pace_app, P. }
    assert (count_queries (trace st ++ [PrintStopped])
            = count_queries (trace st)) as Q'.
    { rewrite count_queries_app. cbn [count_queries]. lia. }
    destruct e; cbn [fst snd trace]; rewrite ?P', ?Q', ?P;
      (split; [done|]); (split; [lia|done]).
Qed.

Lemma X11_witness :
  count_queries (trace (snd (@main tag_stripper [tick_ok; tick_ok])))
  = length [tick_ok; tick_ok] /\
  count_sleeps (trace (snd (@main tag_stripper [tick_ok; tick_ok])))
  = length [tick_ok; tick_ok].
Proof.
  apply (proj2 (proj2 (X11_queries_are_paced tag_stripper [tick_ok; tick_ok]))).
  vm_compute. reflexivity.
Defined.


(** ** One pass per message *)

Lemma events_about_app id tr1 tr2 :
  events_about id (tr1 ++ tr2) = events_about id tr1 ++ events_about id tr2.
Proof. apply List.filter_app. Qed.

Lemma is_about_self id e : event_id e = Some id -> is_about id e = true.
Proof. unfold is_about. intros ->. by apply str_eqb_eq. Qed.

Lemma is_about_other id j e :
  event_id e = Some j -> j <> id -> is_about id e = false.
Proof.
  unfold is_about. intros -> Hne. destruct (str_eqb j id) eqn:E; [|done].
  by apply str_eqb_eq in E.
Qed.

Lemma events_about_self id new :
  Forall (fun e => event_id e = Some id) new -> events_about id new = new.
Proof.
  induction 1 as [|e new He _ IH]; [done|]. unfold events_about.
  cbn [List.filter]. rewrite (is_about_self _ _ He). f_equal. exact IH.
Qed.

Lemma events_about_other id j new :
  j <> id -> Forall (fun e => event_id e = Some j) new ->
  events_about id new = [].
Proof.
  intros Hne. induction 1 as [|e new He _ IH]; [done|]. unfold events_about.
  cbn [List.filter]. by rewrite (is_about_other _ _ _ He Hne).
Qed.

Lemma processed_about id r :
  Forall (fun e => event_id e = Some id) (processed id r).
Proof. unfold processed. destruct r; repeat constructor. Qed.

Lemma one_pass_aborted st : one_pass true st -> one_pass false st.
Proof.
  intros H id. destruct (H id) as [H1 H2]. split; [exact H1|].
  intros Hn. destruct (H2 Hn) as [E|[? _]]; [by left|done].
Qed.

Lemma one_pass_any b st : one_pass true st -> one_pass b st.
Proof. destruct b; [done|apply one_pass_aborted]. Qed.

Lemma keeps_ret {A} (a : A) : keeps_passes (ret a).
Proof. by intros st r st' [= <- <-]. Qed.

Lemma keeps_lift {A} (x : res A) : keeps_passes (lift x).
Proof. intros st r st' [= <- <-]. apply one_pass_any. Qed.

Lemma keeps_bind {A B} (m : M A) (f : A -> M B) :
  keeps_passes m -> (forall a, keeps_passes (f a)) ->
  keeps_passes (mbind m f).
Proof.
  intros Hm Hf st r st' H Hst.
  apply mbind_run in H as [(a & st1 & H1 & H2)|(e & H1 & ->)].
  - exact (Hf a _ _ _ H2 (Hm _ _ _ H1 Hst)).
  - exact (Hm _ _ _ H1 Hst).
Qed.

Lemma one_pass_append b st new :
  (forall id, events_about id new = []) ->
  one_pass b st -> one_pass b (State (seen st) (trace st ++ new)).
Proof.
  intros Hnew H id. cbn [seen trace].
  rewrite events_about_app, Hnew, app_nil_r. apply H.
Qed.

Lemma keeps_log e : event_id e = None -> keeps_passes (log e).
Proof.
  intros He st r st' [= <- <-]. apply one_pass_append.
  intros id. unfold events_about, is_about. cbn [List.filter].
  by rewrite He.
Qed.

Section Passes.
Context {soup : BeautifulSoup}.

Lemma keeps_process t id nf : keeps_passes (process_message t id nf).
Proof.
  intros st r st' H Hst.
  destruct (process_cases t id nf st)
    as [[_ E]|[(Hn & _ & e & new & E & Hnew)|(Hn & _ & E)]];
    rewrite E in H; injection H as <- <-.
  - exact Hst.
  - intros j. cbn [returned seen trace]. rewrite events_about_app.
    assert (Forall (fun e => event_id e = Some id) new) as Hid
      by (destruct Hnew as [-> | ->]; repeat constructor).
    destruct (Hst j) as [H1 H2]. destruct (decide (id = j)) as [<-|Hne].
    + split; [done|]. intros _. right. split; [done|].
      destruct (H2 Hn) as [-> |[? _]]; [|done].
      rewrite (events_about_self _ _ Hid). cbn [app].
      destruct Hnew as [-> | ->]; [by left|by right].
    + rewrite (events_about_other _ _ _ Hne Hid), app_nil_r.
      split; [exact H1|]. intros Hj.
      destruct (H2 Hj) as [-> |[? _]]; [by left|done].
  - intros j. cbn [returned seen trace]. rewrite events_about_app.
    destruct (Hst j) as [H1 H2]. destruct (decide (id = j)) as [<-|Hne].
    + split.
      * intros _. exists (txn_of t id).
        destruct (H2 Hn) as [-> |[? _]]; [|done].
        by rewrite (events_about_self _ _ (processed_about id _)).
      * intros Hj. exfalso. apply Hj. by apply elem_of_union_l, elem_of_singleton.
    + rewrite (events_about_other _ _ _ Hne (processed_about id _)), app_nil_r.
      split.
      * intros [Hj%elem_of_singleton|Hj]%elem_of_union; [done|by apply H1].
      * intros Hj. apply H2. intros ?. apply Hj. by apply elem_of_union_r.
Qed.

Lemma keeps_for_messages t messages nf :
  keeps_passes (for_messages t messages nf).
Proof.
  revert nf. induction messages as [|id messages IH]; intros nf;
    cbn [for_messages].
  - apply keeps_ret.
  - apply keeps_bind; [apply keeps_process|]. intros nf'. apply IH.
Qed.

Lemma keeps_run_cycle t : keeps_passes (run_cycle t).
Proof.
  unfold run_cycle.
  apply keeps_bind; [by apply keeps_log|]. intros _.
  apply keeps_bind; [apply keeps_lift|]. intros messages.
  apply keeps_bind; [apply keeps_for_messages|]. intros nf.
  apply keeps_bind.
  { destruct nf; [apply keeps_ret|by apply keeps_log]. }
  intros _. apply keeps_bind; [by apply keeps_log|].
  intros _. apply keeps_lift.
Qed.

Lemma keeps_poll ticks : keeps_passes (poll ticks).
Proof.
  induction ticks as [|t ticks IH]; cbn [poll].
  - apply keeps_ret.
  - apply keeps_bind; [apply keeps_run_cycle|]. by intros _.
Qed.

Lemma one_pass_initial : one_pass true initial.
Proof.
  intros id. cbn [initial seen trace]. split; [|by left].
  intros H. by apply elem_of_empty in H.
Qed.

End Passes.

(** Extra X12.  In every run, the events about one message are a single pass
    of the loop body, or the beginning of one: the fetch, the decoding, the
    extraction, the print when a record was found, and the add to the seen
    set.  So no message is fetched twice and no transaction is printed
    twice.  The pass is whole for every message in the seen set; and while
    the loop is running there are no events at all about a message that is
    not in the seen set. *)
Theorem X12_one_pass_per_message :
  forall (soup : BeautifulSoup) (ticks : list tick) (id : msg_id),
    (exists r, events_about id (trace (snd (main ticks)))
               `prefix_of` processed id r) /\
    (id ∈ seen (snd (main ticks)) ->
     exists r, events_about id (trace (snd (main ticks))) = processed id r) /\
    (fst (main ticks) = Polling -> id ∉ seen (snd (main ticks)) ->
     events_about id (trace (snd (main ticks))) = []).
Proof.
  intros soup ticks id.
  destruct (poll ticks initial) as [r st] eqn:E.
  pose proof (keeps_poll ticks _ _ _ E one_pass_initial) as Hst.
  assert (exists b, one_pass b (snd (main ticks)) /\
                    (fst (main ticks) = Polling -> b = true)) as (b & Hb & Hp).
  { unfold main. rewrite E. destruct r as [[]|e].
    - exists true. by split.
    - exists false. cbn [returned] in Hst.
      assert (one_pass false (State (seen st) (trace st ++ [PrintStopped])))
        as Hs by (by apply one_pass_append).
      destruct e; by split. }
  destruct (Hb id) as [H1 H2]. split; [|split].
  - destruct (decide (id ∈ seen (snd (main ticks)))) as [Hin|Hn].
    + destruct (H1 Hin) as [x ->]. by exists x.
    + exists None. destruct (H2 Hn) as [-> |[_ [-> | ->]]].
      * apply prefix_nil.
      * by exists [Decode id; Extract id None; MarkSeen id].
      * by exists [Extract id None; MarkSeen id].
  - exact H1.
  - intros Hpoll Hn. destruct (H2 Hn) as [-> |[Hf _]]; [done|].
    by rewrite (Hp Hpoll) in Hf.
Qed.

Lemma X12_witness :
  exists r,
    events_about m_credit (trace (snd (@main tag_stripper [tick_ok; tick_ok])))
    = processed m_credit r.
Proof.
  apply (proj1 (proj2 (X12_one_pass_per_message tag_stripper [tick_ok; tick_ok]
                         m_credit))).
  apply (bool_decide_unpack _). vm_compute. exact I.
Defined.

(** ** Rounds in which nothing goes wrong *)

Lemma seen_only_chain (a b c d e : gset msg_id) :
  b ⊆ a ∪ c -> d ⊆ b ∪ e -> d ⊆ a ∪ (c ∪ e).
Proof.
  intros S1 S2 j Hj. apply S2, elem_of_union in Hj as [Hj|Hj].
  - apply S1, elem_of_union in Hj as [Hj|Hj].
    + by apply elem_of_union_l.
    + by apply elem_of_union_r, elem_of_union_l.
  - by apply elem_of_union_r, elem_of_union_r.
Qed.

Lemma seen_only_weaken (a b c e : gset msg_id) :
  b ⊆ a ∪ c -> b ⊆ a ∪ (c ∪ e).
Proof.
  intros S1 j Hj. apply S1, elem_of_union in Hj as [Hj|Hj].
  - by apply elem_of_union_l.
  - by apply elem_of_union_r, elem_of_union_l.
Qed.

Section Answers.
Context {soup : BeautifulSoup}.

Lemma process_seen_only t id nf st r st' :
  process_message t id nf st = (r, st') -> seen st' ⊆ seen st ∪ {[id]}.
Proof.
  intros H.
  destruct (process_cases t id nf st)
    as [[_ E]|[(_ & _ & e & new & E & _)|(_ & _ & E)]];
    rewrite E in H; injection H as <- <-; cbn [seen].
  - apply union_subseteq_l.
  - apply union_subseteq_l.
  - intros j [Hj|Hj]%elem_of_union;
      [by apply elem_of_union_r|by apply elem_of_union_l].
Qed.

Lemma for_messages_seen_only t messages nf st r st' :
  for_messages t messages nf st = (r, st') ->
  seen st' ⊆ seen st ∪ list_to_set messages.
Proof.
  revert nf st. induction messages as [|id messages IH]; intros nf st H.
  - injection H as <- <-. apply union_subseteq_l.
  - cbn [for_messages] in H. cbn [list_to_set].
    apply mbind_run in H as [(nf1 & st1 & H1 & H2)|(e & H1 & ->)].
    + exact (seen_only_chain _ _ _ _ _ (process_seen_only _ _ _ _ _ _ H1)
               (IH _ _ H2)).
    + exact (seen_only_weaken _ _ _ _ (process_seen_only _ _ _ _ _ _ H1)).
Qed.

Lemma run_cycle_seen_only t st r st' :
  run_cycle t st = (r, st') -> seen st' ⊆ seen st ∪ listed_by t.
Proof.
  intros H. unfold run_cycle in H.
  apply mbind_run in H as [([] & st1 & H1 & H)|(e & H1 & _)]; [|done].
  injection H1 as <-.
  apply mbind_run in H as [(ms & st2 & H2 & H)|(e & H2 & ->)].
  2:{ injection H2 as _ <-. cbn [seen]. apply union_subseteq_l. }
  unfold lift in H2. injection H2 as Hl <-.
  unfold listed_by. rewrite Hl.
  apply mbind_run in H as [(nf & st3 & H3 & H)|(e & H3 & ->)];
    pose proof (for_messages_seen_only _ _ _ _ _ _ H3) as Hs;
    cbn [seen] in Hs; [|done].
  assert (seen st' = seen st3) as ->; [|done].
  unfold mbind, log, lift, ret in H.
  by destruct nf; injection H as _ <-.
Qed.

Lemma poll_seen_only ticks st r st' :
  poll ticks st = (r, st') -> seen st' ⊆ seen st ∪ listed ticks.
Proof.
  revert st. induction ticks as [|t ticks IH]; intros st H.
  - injection H as <- <-. apply union_subseteq_l.
  - cbn [poll] in H. cbn [listed].
    apply mbind_run in H as [([] & st1 & H1 & H2)|(e & H1 & ->)].
    + exact (seen_only_chain _ _ _ _ _ (run_cycle_seen_only _ _ _ _ H1)
               (IH _ H2)).
    + exact (seen_only_weaken _ _ _ _ (run_cycle_seen_only _ _ _ _ H1)).
Qed.

Lemma run_cycle_answers t st :
  answers t = true ->
  exists st', run_cycle t st = (Return tt, st') /\
              seen st' = seen st ∪ listed_by t.
Proof.
  unfold answers, listed_by.
  destruct (list_result t) as [ms|] eqn:Hl; [|done].
  destruct (sleep_result t) as [[]|] eqn:Hs; [|done]. intros Hr.
  destruct (for_messages_readable t ms false
              (State (seen st) (trace st ++ [Query])) Hr)
    as (nf & st1 & E & Hin & _).
  pose proof (for_messages_seen_only _ _ _ _ _ _ E) as Hsub.
  pose proof (for_messages_grows _ _ _ _ _ _ E) as (Hg & _).
  cbn [seen] in Hsub, Hg.
  exists (State (seen st1)
            (trace st1 ++ (if nf then [] else [PrintDot]) ++ [Sleep])).
  split.
  - unfold run_cycle, mbind, log, lift, ret. rewrite Hl, E, Hs.
    destruct nf; cbn [seen trace app]; [done|]. by rewrite <- app_assoc.
  - cbn [seen]. apply set_eq. intros id. split; [by apply Hsub|].
    intros [Hi|Hi%elem_of_list_to_set]%elem_of_union; [by apply Hg|].
    by apply Hin.
Qed.

Lemma poll_answers ticks st :
  forallb answers ticks = true ->
  exists st', poll ticks st = (Return tt, st') /\
              seen st' = seen st ∪ listed ticks.
Proof.
  revert st. induction ticks as [|t ticks IH]; intros st H.
  - exists st. split; [done|]. cbn [listed]. by rewrite (right_id_L ∅ (∪)).
  - cbn [forallb] in H. apply andb_true_iff in H as [Ht H].
    destruct (run_cycle_answers t st Ht) as (st1 & E1 & S1).
    destruct (IH st1 H) as (st2 & E2 & S2).
    exists st2. split.
    + cbn [poll]. unfold mbind. by rewrite E1.
    + cbn [listed]. rewrite S2, S1. by rewrite (assoc_L (∪)).
Qed.

End Answers.

(** Extra X13.  The seen set only ever holds identifiers that a query has
    listed.  And as long as, in every round, the provider answers the query,
    every listed message can be fetched and decoded and the sleep is not
    interrupted, the loop goes on: after any number of such rounds [main]
    has not ended, and the seen set holds exactly the identifiers listed so
    far. *)
Theorem X13_polling_goes_on :
  forall (soup : BeautifulSoup) (ticks : list tick),
    seen (snd (main ticks)) ⊆ listed ticks /\
    (forallb answers ticks = true ->
     fst (main ticks) = Polling /\ seen (snd (main ticks)) = listed ticks).
Proof.
  intros soup ticks. split.
  - destruct (main_state ticks) as (r & st & E & -> & _).
    pose proof (poll_seen_only _ _ _ _ E) as Hs. cbn [initial seen] in Hs.
    by rewrite (left_id_L ∅ (∪)) in Hs.
  - intros H. destruct (poll_answers ticks initial H) as (st & E & S).
    unfold main. rewrite E. cbn [fst snd]. split; [done|].
    rewrite S. cbn [initial seen]. apply (left_id_L ∅ (∪)).
Qed.

Lemma X13_witness :
  fst (@main tag_stripper [tick_ok; tick_ok; tick_ok]) = Polling /\
  seen (snd (@main tag_stripper [tick_ok; tick_ok; tick_ok]))
  = listed [tick_ok; tick_ok; tick_ok].
Proof.
  apply (proj2 (X13_polling_goes_on tag_stripper [tick_ok; tick_ok; tick_ok])).
  vm_compute. reflexivity.
Defined.

(** ** What ends the program *)

Section Endings.
Context {soup : BeautifulSoup}.





End Endings.




(** * Authentication *)

Lemma authenticate_cases env w :
  let w0 := note LoadToken w in
  (exists e, load_token env (token_file w) = Raise e /\
             is_Exception e = false /\
             authenticate_gmail env w = (Raise e, w0)) \/
  (exists c, load_token env (token_file w) = Return c /\ valid c = true /\
             authenticate_gmail env w = (Return c, w0)) \/
  (exists cached, authenticate_gmail env w = renew env cached w0).
Proof.
  intros w0. unfold authenticate_gmail. fold w0.
  destruct (load_token env (token_file w)) as [c|e] eqn:El; cbn [except_pass].
  - destruct (valid c) eqn:Ev.
    + right. left. by exists c.
    + right. right. by exists (Some c).
  - destruct (is_Exception e) eqn:Ee.
    + right. right. by exists None.
    + left. by exists e.
Qed.

Lemma obtain_calls env cached w r w1 :
  obtain env cached w = (r, w1) ->
  token_file w1 = token_file w /\
  ((calls w1 = calls w ++ [Refresh] /\
    exists c, cached = Some c /\ expired c = true /\
              truthy (refresh_token c) = true /\ r = refresh env c) \/
   (calls w1 = calls w ++ [RunFlow] /\ r = run_flow env /\
    forall c, cached = Some c ->
              expired c = false \/ truthy (refresh_token c) = false)).
Proof.
  unfold obtain. destruct cached as [c|].
  - destruct (expired c) eqn:Ex; cbn [andb].
    + destruct (truthy (refresh_token c)) eqn:Et; intros [= <- <-];
        (split; [done|]).
      * left. split; [done|]. by exists c.
      * right. split; [done|]. split; [done|]. intros c' [= <-]. by right.
    + intros [= <- <-]. split; [done|]. right. split; [done|].
      split; [done|]. intros c' [= <-]. by left.
  - intros [= <- <-]. split; [done|]. right. by repeat split.
Qed.

(** Extra X15.  Whatever [authenticate_gmail] returns is on file: either the
    credentials are the valid ones that the token file held, and then no
    refresh and no browser flow took place and the file was not written; or
    they come from a refresh or from the browser flow, and then the token
    file holds their JSON text when the function returns. *)
Theorem X15_returned_credentials_are_on_file :
  forall (env : auth_env) (w : world) (c : creds) (w' : world),
    authenticate_gmail env w = (Return c, w') ->
    (load_token env (token_file w) = Return c /\ valid c = true /\
     w' = note LoadToken w) \/
    (token_file w' = Some (to_json c) /\
     exists how, (how = Refresh \/ how = RunFlow) /\
       calls w' = calls w ++ [LoadToken; how; WriteToken (to_json c)]).
Proof.
  intros env w c w' H.
  destruct (authenticate_cases env w)
    as [(e & _ & _ & E)|[(c0 & El & Ev & E)|(cached & E)]];
    rewrite E in H.
  - done.
  - injection H as <- <-. by left.
  - right. unfold renew in H.
    destruct (obtain env cached (note LoadToken w)) as [[c1|e] w1] eqn:Eo;
      [|done].
    unfold store in H. destruct (open_token env) as [[]|e]; [|done].
    injection H as <- <-. cbn [token_file calls]. split; [done|].
    destruct (obtain_calls _ _ _ _ _ Eo) as (_ & [(Hc & _)|(Hc & _)]);
      rewrite Hc; cbn [note calls]; rewrite <- !app_assoc.
    + exists Refresh. split; [by left|done].
    + exists RunFlow. split; [by right|done].
Qed.

Lemma X15_witness :
  (load_token sample_env (token_file (World (Some (codes "{token-1}")) []))
   = Return signed_in /\
   valid signed_in = true /\
   World (Some (to_json signed_in)) [LoadToken; Refresh; WriteToken (to_json signed_in)]
   = note LoadToken (World (Some (codes "{token-1}")) [])) \/
  (token_file
     (World (Some (to_json signed_in))
        [LoadToken; Refresh; WriteToken (to_json signed_in)])
   = Some (to_json signed_in) /\
   exists how, (how = Refresh \/ how = RunFlow) /\
     calls (World (Some (to_json signed_in))
              [LoadToken; Refresh; WriteToken (to_json signed_in)])
     = calls (World (Some (codes "{token-1}")) [])
       ++ [LoadToken; how; WriteToken (to_json signed_in)]).
Proof.
  apply (X15_returned_credentials_are_on_file sample_env
           (World (Some (codes "{token-1}")) []) signed_in
           (World (Some (to_json signed_in))
              [LoadToken; Refresh; WriteToken (to_json signed_in)])).
  vm_compute. reflexivity.
Defined.

(** Extra X16.  When the token file reads back what was written to it, a
    call that returned valid credentials makes the next call cheap: the next
    call returns the same credentials from the file, without a refresh,
    without the browser flow and without writing the file. *)
Theorem X16_second_call_reads_the_token_file :
  forall (env : auth_env) (w : world) (c : creds) (w' : world),
    authenticate_gmail env w = (Return c, w') ->
    valid c = true ->
    load_token env (Some (to_json c)) = Return c ->
    authenticate_gmail env w' = (Return c, note LoadToken w').
Proof.
  intros env w c w' H Hv Hl.
  assert (load_token env (token_file w') = Return c) as Hl'.
  { destruct (authenticate_cases env w)
      as [(e & _ & _ & E)|[(c0 & El & Ev & E)|(cached & E)]];
      rewrite E in H.
    - done.
    - injection H as <- <-. exact El.
    - unfold renew in H.
      destruct (obtain env cached (note LoadToken w)) as [[c1|e] w1]; [|done].
      unfold store in H. destruct (open_token env) as [[]|e]; [|done].
      injection H as <- <-. exact Hl. }
  unfold authenticate_gmail. rewrite Hl'. cbn [except_pass].
  by rewrite Hv.
Qed.

Lemma X16_witness :
  authenticate_gmail sample_env
    (World (Some (to_json signed_in)) [LoadToken; RunFlow; WriteToken (to_json signed_in)])
  = (Return signed_in,
     note LoadToken
       (World (Some (to_json signed_in))
          [LoadToken; RunFlow; WriteToken (to_json signed_in)])).
Proof.
  apply (X16_second_call_reads_the_token_file sample_env (World None []) signed_in
           (World (Some (to_json signed_in))
              [LoadToken; RunFlow; WriteToken (to_json signed_in)])).
  - vm_compute. reflexivity.
  - reflexivity.
  - vm_compute. reflexivity.
Defined.

(** Extra X17.  How failures are treated.  An [Exception] raised while the
    token file is read (a missing or damaged file) is swallowed: the
    function goes on to the browser flow as if there were no token, and its
    result is that of the flow, then of opening the token file.  An
    exception that is not an [Exception] leaves the function at once.  A
    refresh that fails is not followed by the browser flow: when the cached
    credentials are invalid, expired and carry a refresh token, the
    exception of the refresh leaves the function, and the token file is
    neither opened nor written. *)
Theorem X17_failures_of_authentication :
  forall (env : auth_env) (w : world),
    (forall e,
       load_token env (token_file w) = Raise e -> is_Exception e = true ->
       fst (authenticate_gmail env w)
       = (c <- run_flow env ;; _ <- open_token env ;; Return c) /\
       exists rest,
         calls (snd (authenticate_gmail env w))
         = calls w ++ [LoadToken; RunFlow] ++ rest) /\
    (forall e,
       load_token env (token_file w) = Raise e -> is_Exception e = false ->
       authenticate_gmail env w = (Raise e, note LoadToken w)) /\
    (forall c e,
       load_token env (token_file w) = Return c ->
       valid c = false -> expired c = true ->
       truthy (refresh_token c) = true ->
       refresh env c = Raise e ->
       authenticate_gmail env w = (Raise e, note Refresh (note LoadToken w))).
Proof.
  intros env w. split; [|split].
  - intros e Hl He. unfold authenticate_gmail. rewrite Hl.
    cbn [except_pass]. rewrite He. unfold renew, obtain, store.
    destruct (run_flow env) as [c|e1]; cbn [bind fst snd].
    + destruct (open_token env) as [[]|e2]; cbn [bind fst snd calls note].
      * split; [done|]. exists [WriteToken (to_json c)].
        by rewrite <- !app_assoc.
      * split; [done|]. exists []. by rewrite <- !app_assoc.
    + split; [done|]. exists []. cbn [calls note]. by rewrite <- !app_assoc.
  - intros e Hl He. unfold authenticate_gmail. rewrite Hl.
    cbn [except_pass]. by rewrite He.
  - intros c e Hl Hv Hx Ht Hr. unfold authenticate_gmail. rewrite Hl.
    cbn [except_pass]. rewrite Hv. unfold renew, obtain.
    rewrite Hx, Ht. cbn [andb]. by rewrite Hr.
Qed.

Lemma X17_witness :
  (fst (authenticate_gmail sample_env (World None []))
   = (c <- run_flow sample_env ;; _ <- open_token sample_env ;; Return c) /\
   exists rest,
     calls (snd (authenticate_gmail sample_env (World None [])))
     = calls (World None []) ++ [LoadToken; RunFlow] ++ rest) /\
  authenticate_gmail revoked_env (World (Some (codes "{token-1}")) [])
  = (Raise FatalError,
     note Refresh (note LoadToken (World (Some (codes "{token-1}")) []))).
Proof.
  split.
  - apply (proj1 (X17_failures_of_authentication sample_env (World None []))
             FatalError); reflexivity.
  - apply (proj2 (proj2 (X17_failures_of_authentication revoked_env
                           (World (Some (codes "{token-1}")) [])))
             stale FatalError); vm_compute; reflexivity.
Defined.


(** * The decoder and the extractor together *)

Lemma space_not_digit c : is_space c = true -> is_decimal c = false.
Proof.
  intros H.
  assert (c < 256 \/ (0x2000 <= c /\ c <= 0x200a) \/ c = 0x1680 \/
          c = 0x2028 \/ c = 0x2029 \/ c = 0x202f \/ c = 0x205f \/ c = 0x3000)
    as Hc.
  { unfold is_space in H.
    rewrite !orb_true_iff, !andb_true_iff, !N.leb_le, !N.eqb_eq in H. lia. }
  destruct Hc as [Hc|[[Hlo Hhi]|Hc]].
  - pose proof (below_check
      (fun c => negb (is_space c) || negb (is_decimal c)) 256
      ltac:(vm_compute; reflexivity) c Hc) as Hb.
    cbn beta in Hb. rewrite H in Hb. cbn [negb orb] in Hb.
    by apply negb_true_iff in Hb.
  - pose proof (below_check
      (fun k => negb (is_decimal (0x2000 + k))) 11
      ltac:(vm_compute; reflexivity) (c - 0x2000) ltac:(lia)) as Hb.
    cbn beta in Hb. replace (0x2000 + (c - 0x2000)) with c in Hb by lia.
    by apply negb_true_iff in Hb.
  - repeat (destruct Hc as [->|Hc]; [vm_compute; reflexivity|]).
    subst c. vm_compute. reflexivity.
Qed.

Lemma space_not_marker c : is_space c = true -> (82 =? c) = false.
Proof.
  intros H. apply N.eqb_neq. intros <-. vm_compute in H. discriminate.
Qed.

Lemma lstrip_blanks s :
  exists ws, s = ws ++ lstrip s /\ Forall (fun c => is_space c = true) ws.
Proof.
  induction s as [|c s (ws & E & F)]; [by exists []|]. cbn [lstrip].
  destruct (is_space c) eqn:Hc.
  - exists (c :: ws). cbn [app]. rewrite <- E. split; [done|by constructor].
  - by exists [].
Qed.

Lemma rstrip_blanks s :
  exists ws, s = rstrip s ++ ws /\ Forall (fun c => is_space c = true) ws.
Proof.
  unfold rstrip. destruct (lstrip_blanks (rev s)) as (ws & E & F).
  exists (rev ws). split.
  - rewrite <- rev_app_distr, <- E. by rewrite rev_involutive.
  - by apply Forall_rev.
Qed.

Lemma re_match_blank_start c s :
  is_space c = true -> re_match txn_pattern (c :: s) = None.
Proof.
  intros H. unfold re_match, txn_pattern. cbn [rmatch].
  change marker with [82; 115; 46]. cbn [match_lit].
  by rewrite (space_not_marker c H).
Qed.

Lemma re_search_blank_prefix ws s :
  Forall (fun c => is_space c = true) ws ->
  re_search txn_pattern (ws ++ s) = re_search txn_pattern s.
Proof.
  induction 1 as [|c ws Hc _ IH]; [done|]. cbn [app re_search].
  by rewrite (re_match_blank_start c _ Hc).
Qed.

Lemma re_search_blanks ws :
  Forall (fun c => is_space c = true) ws -> re_search txn_pattern ws = None.
Proof.
  intros H. rewrite <- (app_nil_r ws), (re_search_blank_prefix ws [] H).
  reflexivity.
Qed.

(** A text of the shape of the pattern is matched at its start. *)
Lemma txn_match_shape ds dd mid ref post :
  ds <> [] -> digits ds -> length dd = 2%nat -> digits dd ->
  ref <> [] -> digits ref ->
  has_ref_token mid = false -> digit_ahead post = false ->
  re_match txn_pattern
    (marker ++ ds ++ dot ++ dd ++ credited ++ mid ++ ref_phrase ++ ref ++ post)
  = Some [(2%nat, ref); (1%nat, ds ++ dot ++ dd)].
Proof.
  intros. apply txn_match_head; try done. by apply ref_tail_first.
Qed.

Lemma digit_ahead_blanks post ws :
  Forall (fun c => is_space c = true) ws ->
  digit_ahead post = false -> digit_ahead (post ++ ws) = false.
Proof.
  intros Hws Hp. destruct post as [|c post]; [|exact Hp]. cbn [app].
  destruct Hws as [|w ws Hw _]; [done|]. cbn [digit_ahead].
  by apply space_not_digit.
Qed.

(** Blanks after a text change nothing to a match at its start. *)
Lemma re_match_blank_suffix x ws :
  Forall (fun c => is_space c = true) ws ->
  re_match txn_pattern (x ++ ws) = re_match txn_pattern x.
Proof.
  intros Hws.
  destruct (re_match txn_pattern x) as [g|] eqn:Ex.
  - apply txn_match_Some_first in Ex
      as (ds & dd & mid & ref & post & -> & Hne & Hds & Hlen & Hdd
          & Hrne & Href & -> & Hmid & Hpost).
    rewrite <- !app_assoc.
    apply txn_match_shape; try done. by apply digit_ahead_blanks.
  - destruct (re_match txn_pattern (x ++ ws)) as [g|] eqn:Exw; [|done].
    exfalso.
    apply txn_match_Some_first in Exw
      as (ds & dd & mid & ref & post & E & Hne & Hds & Hlen & Hdd
          & Hrne & Href & -> & Hmid & Hpost).
    assert (exists l, x = (marker ++ ds ++ dot ++ dd ++ credited ++ mid
                           ++ ref_phrase ++ ref) ++ l /\ post = l ++ ws)
      as (l & Hx & Hl).
    { rewrite 7!app_assoc in E. apply app_eq_app in E as [l [[E1 E2]|[E1 E2]]].
      - exists l. rewrite <- !app_assoc. rewrite <- !app_assoc in E1.
        by split.
      - destruct (decide (l = [])) as [->|Hl].
        + exists []. rewrite app_nil_r in E1. rewrite app_nil_r, <- E1.
          rewrite <- !app_assoc. by split.
        + exfalso.
          destruct (exists_last Hl) as (l' & w & ->).
          destruct (exists_last Hrne) as (ref' & d & ->).
          assert (is_space w = true) as Hw.
          { apply (proj1 (Forall_forall _ _) Hws). rewrite E2.
            apply elem_of_app. left. apply elem_of_app. right.
            by apply list_elem_of_singleton. }
          assert (is_decimal d = true) as Hd.
          { apply (proj1 (Forall_forall _ _) Href).
            apply elem_of_app. right. by apply list_elem_of_singleton. }
          rewrite !app_assoc in E1. apply app_inj_tail in E1 as [_ <-].
          by rewrite (space_not_digit _ Hw) in Hd. }
    rewrite Hx, <- !app_assoc in Ex.
    rewrite txn_match_shape in Ex; try done.
    destruct l as [|c l]; [done|]. rewrite Hl in Hpost. exact Hpost.
Qed.

Lemma re_search_blank_suffix core ws :
  Forall (fun c => is_space c = true) ws ->
  re_search txn_pattern (core ++ ws) = re_search txn_pattern core.
Proof.
  intros Hws. induction core as [|c core IH].
  - cbn [app]. by rewrite (re_search_blanks ws Hws).
  - change ((c :: core) ++ ws) with (c :: (core ++ ws)). cbn [re_search].
    change (c :: (core ++ ws)) with ((c :: core) ++ ws).
    by rewrite (re_match_blank_suffix (c :: core) ws Hws), IH.
Qed.

(** Extra X18.  Stripping a text changes nothing to what is extracted from
    it: the blanks that [strip] removes at both ends can neither start a
    match nor follow the reference as further digits.  So the [strip] of the
    decoder has no effect on the record that [main] prints. *)
Theorem X18_strip_keeps_extraction :
  forall text,
    re_search txn_pattern (strip text) = re_search txn_pattern text /\
    extract_transaction_info (strip text) = extract_transaction_info text.
Proof.
  intros text.
  assert (re_search txn_pattern (strip text) = re_search txn_pattern text)
    as Hs.
  { destruct (lstrip_blanks text) as (ws1 & E1 & F1).
    destruct (rstrip_blanks (lstrip text)) as (ws2 & E2 & F2).
    symmetry.
    etrans; [exact (f_equal (re_search txn_pattern) E1)|].
    rewrite (re_search_blank_prefix ws1 _ F1).
    etrans; [exact (f_equal (re_search txn_pattern) E2)|].
    exact (re_search_blank_suffix _ ws2 F2). }
  split; [exact Hs|].
  unfold extract_transaction_info, extract_with, extract_try.
  by rewrite Hs.
Qed.
